(** * MDFTable: sorting, filtering, pagination and row selection

    A shallow embedding of [modules/table/mdf-table.ts].  The component
    keeps an array of row elements ([this.rows]), an optional array of
    filtered rows ([this.filteredRows]), pagination counters and a counter
    of selected rows; it shows and hides rows by toggling the class
    [mdf-hidden] on the row elements.

    Modelling conventions.
    - A DOM row element is a [Row]: an identity ([rowId]) and its cells.
      The mutable part of a row (its class list) lives in the table state,
      keyed by the identity, because the same element is reachable through
      [this.rows], through [this.filteredRows] and through the document.
    - JavaScript numbers that count things are [nat]; [selectedRows] is a
      [Z] because the code decrements it without a lower bound.
    - Text is ASCII: [toUpperCase] folds the letters a-z only.
    - An operation that can throw returns an [Outcome]: the state when it
      returned, or the exception together with the state at the throw. *)

From stdpp Require Import base list strings gmap pretty.
From Stdlib Require Import Ascii ZArith Lia.

Set Warnings "-clear-no-such-hyp".

(** ** Strings *)

(** [String.prototype.toUpperCase], on ASCII text. *)
Definition upperChar (c : ascii) : ascii :=
  let n := nat_of_ascii c in
  if ((97 <=? n) && (n <=? 122))%nat then ascii_of_nat (n - 32) else c.

Fixpoint toUpperCase (s : string) : string :=
  match s with
  | EmptyString => EmptyString
  | String c s' => String (upperChar c) (toUpperCase s')
  end.

Fixpoint startsWith (p s : string) : bool :=
  match p, s with
  | EmptyString, _ => true
  | String a p', String b s' => if Ascii.eqb a b then startsWith p' s' else false
  | String _ _, EmptyString => false
  end.

(** [s.includes(sub)]: [sub] occurs in [s] at some position. *)
Fixpoint includes (s sub : string) : bool :=
  startsWith sub s ||
  match s with
  | EmptyString => false
  | String _ s' => includes s' sub
  end.

(** ** Dates: [convertStringToDate] *)

Local Open Scope Z_scope.

(** The character class of the regular expression [/[.-/]/].  Inside a
    class, [.-/] is a range: from [.] (code 46) to [/] (code 47). *)
Definition delimiter (c : ascii) : bool :=
  let n := nat_of_ascii c in ((46 <=? n) && (n <=? 47))%nat.

(** [date.split(/[.-/]/)]: the pieces between the matches of the class. *)
Fixpoint split (s : string) : list string :=
  match s with
  | EmptyString => [EmptyString]
  | String c s' =>
      if delimiter c then EmptyString :: split s'
      else match split s' with
           | t :: ts => String c t :: ts
           | [] => [String c EmptyString]
           end
  end.

(** A JavaScript number as far as dates need it: an integer or NaN. *)
Inductive Num := Int (z : Z) | NaN.

Definition digitValue (c : ascii) : option Z :=
  let n := nat_of_ascii c in
  if ((48 <=? n) && (n <=? 57))%nat then Some (Z.of_nat n - 48) else None.

Fixpoint digits (acc : Z) (s : string) : Num :=
  match s with
  | EmptyString => Int acc
  | String c s' =>
      match digitValue c with
      | Some d => digits (10 * acc + d) s'
      | None => NaN
      end
  end.

(** Unary plus on an element of the split array: [+splitDate[i]].  An
    index past the end reads [undefined], which converts to NaN.  A token
    of decimal digits converts to its value and the empty token to 0; any
    other token is taken as NaN (signs, blanks, exponents and hexadecimal
    literals lie outside the modelled fragment). *)
Definition toNumber (tok : option string) : Num :=
  match tok with
  | None => NaN
  | Some s => digits 0 s
  end.

(** Day number of 1 January of year [y], counted from 1 January 1970. *)
Definition DayFromYear (y : Z) : Z :=
  365 * (y - 1970) + (y - 1969) / 4 - (y - 1901) / 100 + (y - 1601) / 400.

Definition InLeapYear (y : Z) : bool :=
  (y mod 4 =? 0) && (negb (y mod 100 =? 0) || (y mod 400 =? 0)).

(** Days before the first day of month index [mn] (0 = January). *)
Definition monthStart (mn : Z) (leap : bool) : Z :=
  nth (Z.to_nat mn) [0; 31; 59; 90; 120; 151; 181; 212; 243; 273; 304; 334] 0
  + (if leap && (2 <=? mn) then 1 else 0).

(** [MakeDay]: month indices outside 0..11 carry into the year, and a day
    of month outside the month carries into the following months. *)
Definition MakeDay (year month date : Z) : Z :=
  let ym := year + month / 12 in
  let mn := month mod 12 in
  DayFromYear ym + monthStart mn (InLeapYear ym) + date - 1.

(** Two-digit years are years of the twentieth century. *)
Definition MakeFullYear (y : Z) : Z :=
  if (0 <=? y) && (y <=? 99) then 1900 + y else y.

(** A [Date] object, by its time value in days (midnight of a calendar
    day; the offset of the local time zone is left out); [InvalidDate] has
    the time value NaN. *)
Inductive JsDate := DateAt (day : Z) | InvalidDate.

(** [new Date(year, monthIndex, day)].  The second argument is a month
    INDEX: 0 is January. *)
Definition newDate (year monthIndex day : Num) : JsDate :=
  match year, monthIndex, day with
  | Int y, Int m, Int d =>
      let t := MakeDay (MakeFullYear y) m d in
      if Z.abs t <=? 100000000 then DateAt t else InvalidDate
  | _, _, _ => InvalidDate
  end.

(** The result is [None] when no [case] of the [switch] matches and
    [finalDate] stays [undefined]. *)
Definition convertStringToDate (date format : string) : option JsDate :=
  let splitDate := split date in
  let tok (i : nat) := toNumber (splitDate !! i) in
  if decide (format = "DMY") then Some (newDate (tok 2%nat) (tok 1%nat) (tok 0%nat))
  else if decide (format = "MDY") then Some (newDate (tok 2%nat) (tok 0%nat) (tok 1%nat))
  else if decide (format = "YMD") then Some (newDate (tok 0%nat) (tok 1%nat) (tok 2%nat))
  else if decide (format = "YDM") then Some (newDate (tok 0%nat) (tok 2%nat) (tok 1%nat))
  else None.

(** The relational operators on the converted values: both operands become
    numbers, and a comparison with NaN ([undefined], an invalid date) is
    false. *)
Definition timeValue (d : option JsDate) : option Z :=
  match d with
  | Some (DateAt t) => Some t
  | _ => None
  end.

Definition jsLt (a b : option JsDate) : bool :=
  match timeValue a, timeValue b with
  | Some x, Some y => x <? y
  | _, _ => false
  end.

(** The body of the date comparator once both cells carry a format. *)
Definition compareDates (sortASC : bool) (s1 s2 : option JsDate) : Z :=
  if sortASC
  then (if jsLt s1 s2 then -1 else if jsLt s2 s1 then 1 else 0)
  else (if jsLt s2 s1 then -1 else if jsLt s1 s2 then 1 else 0).

(** The calendar day a day/month/year triple denotes (month 1 = January). *)
Definition calendarDay (year month day : Z) : Z := MakeDay year (month - 1) day.

Local Close Scope Z_scope.

(** ** The document and the component state *)

(** A body cell: its text and its [data-date-format] attribute. *)
Record Cell := mkCell {
  textContent : string;
  dateFormat : option string
}.

(** A body row.  [rowId] is the identity of the element; the cells of a
    row never change. *)
Record Row := mkRow {
  rowId : nat;
  cells : list Cell
}.

Global Instance Cell_eq_dec : EqDecision Cell.
Proof. solve_decision. Defined.

Global Instance Row_eq_dec : EqDecision Row.
Proof. solve_decision. Defined.

(** [el.textContent] of a row: the text of its cells, in order (text
    nodes between the cells, such as line breaks of the markup, are left
    out). *)
Definition rowTextContent (el : Row) : string :=
  foldr (fun c s => textContent c +:+ s) EmptyString (cells el).

(** A header cell: the [data-column-type] attribute, the class
    [mdf-table__header--sortable], and what [sortOnClick] writes. *)
Record Header := mkHeader {
  columnType : option string;
  sortable : bool;
  headerActive : bool;
  headerSortASC : bool;
  headerSortDESC : bool;
  ariaSort : option string
}.

Record Options := mkOptions {
  optSortable : bool;
  optPaginate : bool;
  optScrollIntoView : bool;
  optSavePreferences : bool
}.

(** A pagination control: the classes
    [mdf-table__pagination-control--disabled] and [click], and whether the
    component's click listener is attached. *)
Record Control := mkControl {
  controlDisabled : bool;
  controlClick : bool;
  controlListening : bool
}.

(** The header checkbox as [MDFCheckbox] exposes it: the input's [checked]
    and [indeterminate] properties and the container's indeterminate
    class. *)
Record HeaderCheckbox := mkHeaderCheckbox {
  checked : bool;
  indeterminate : bool;
  indeterminateClass : bool
}.

(** A checkbox input of a body row: the row [closest] finds for it, and
    its [checked] property. *)
Record RowCheckbox := mkRowCheckbox {
  boxRow : nat;
  boxChecked : bool
}.

Inductive Effect :=
  | Paginated (page : nat) (items : list Row)
  | Sorted (column : nat) (direction : string)
  | ScrollIntoView.

Inductive Exn :=
  | TypeError
  | Error (message : string).

Record Table := mkTable {
  options : Options;  (* the merged options object *)
  headers : list Header;  (* [this.headers]: the header cells *)
  body : list Row;  (* the children of [this.body], in document order *)
  hidden : gset nat;  (* identities of the rows carrying the class [mdf-hidden] *)
  selectedClass : gset nat;  (* identities of the rows carrying [mdf-table__row--selected] *)
  checkboxHeader : HeaderCheckbox;  (* [this.checkboxHeader] *)
  checkboxes : list RowCheckbox;  (* [this.checkboxes] without the header's input *)
  paginationStats : string;  (* text of the stats element *)
  paginationPrev : Control;  (* the previous-page control *)
  paginationNext : Control;  (* the next-page control *)
  storedItemsPerPage : option string;  (* the [mirai-table-page-limit] item of localStorage *)
  effects : list Effect;  (* events dispatched and scroll requests, oldest first *)
  rows : list Row;  (* [this.rows] *)
  filteredRows : option (list Row);  (* [this.filteredRows]; [None] while undefined *)
  currPage : nat;  (* [this.currPage] *)
  itemsPerPage : nat;  (* [this.itemsPerPage] *)
  pages : nat;  (* [this.pages] *)
  sortASC : bool;  (* [this.sortASC] *)
  selectedRows : Z  (* [this.selectedRows] *)
}.

(** Field updates.  Each [set_f v t] is [t] with field [f] replaced. *)
Definition set_headers (v : list Header) (t : Table) : Table :=
  mkTable (options t) v (body t) (hidden t) (selectedClass t)
    (checkboxHeader t) (checkboxes t) (paginationStats t) (paginationPrev t)
    (paginationNext t) (storedItemsPerPage t) (effects t) (rows t)
    (filteredRows t) (currPage t) (itemsPerPage t) (pages t) (sortASC t)
    (selectedRows t).

Definition set_body (v : list Row) (t : Table) : Table :=
  mkTable (options t) (headers t) v (hidden t) (selectedClass t)
    (checkboxHeader t) (checkboxes t) (paginationStats t) (paginationPrev t)
    (paginationNext t) (storedItemsPerPage t) (effects t) (rows t)
    (filteredRows t) (currPage t) (itemsPerPage t) (pages t) (sortASC t)
    (selectedRows t).

Definition set_hidden (v : gset nat) (t : Table) : Table :=
  mkTable (options t) (headers t) (body t) v (selectedClass t)
    (checkboxHeader t) (checkboxes t) (paginationStats t) (paginationPrev t)
    (paginationNext t) (storedItemsPerPage t) (effects t) (rows t)
    (filteredRows t) (currPage t) (itemsPerPage t) (pages t) (sortASC t)
    (selectedRows t).

Definition set_selectedClass (v : gset nat) (t : Table) : Table :=
  mkTable (options t) (headers t) (body t) (hidden t) v (checkboxHeader t)
    (checkboxes t) (paginationStats t) (paginationPrev t) (paginationNext t)
    (storedItemsPerPage t) (effects t) (rows t) (filteredRows t) (currPage t)
    (itemsPerPage t) (pages t) (sortASC t) (selectedRows t).

Definition set_checkboxHeader (v : HeaderCheckbox) (t : Table) : Table :=
  mkTable (options t) (headers t) (body t) (hidden t) (selectedClass t) v
    (checkboxes t) (paginationStats t) (paginationPrev t) (paginationNext t)
    (storedItemsPerPage t) (effects t) (rows t) (filteredRows t) (currPage t)
    (itemsPerPage t) (pages t) (sortASC t) (selectedRows t).

Definition set_checkboxes (v : list RowCheckbox) (t : Table) : Table :=
  mkTable (options t) (headers t) (body t) (hidden t) (selectedClass t)
    (checkboxHeader t) v (paginationStats t) (paginationPrev t)
    (paginationNext t) (storedItemsPerPage t) (effects t) (rows t)
    (filteredRows t) (currPage t) (itemsPerPage t) (pages t) (sortASC t)
    (selectedRows t).

Definition set_paginationStats (v : string) (t : Table) : Table :=
  mkTable (options t) (headers t) (body t) (hidden t) (selectedClass t)
    (checkboxHeader t) (checkboxes t) v (paginationPrev t) (paginationNext t)
    (storedItemsPerPage t) (effects t) (rows t) (filteredRows t) (currPage t)
    (itemsPerPage t) (pages t) (sortASC t) (selectedRows t).

Definition set_paginationPrev (v : Control) (t : Table) : Table :=
  mkTable (options t) (headers t) (body t) (hidden t) (selectedClass t)
    (checkboxHeader t) (checkboxes t) (paginationStats t) v (paginationNext t)
    (storedItemsPerPage t) (effects t) (rows t) (filteredRows t) (currPage t)
    (itemsPerPage t) (pages t) (sortASC t) (selectedRows t).

Definition set_paginationNext (v : Control) (t : Table) : Table :=
  mkTable (options t) (headers t) (body t) (hidden t) (selectedClass t)
    (checkboxHeader t) (checkboxes t) (paginationStats t) (paginationPrev t) v
    (storedItemsPerPage t) (effects t) (rows t) (filteredRows t) (currPage t)
    (itemsPerPage t) (pages t) (sortASC t) (selectedRows t).

Definition set_storedItemsPerPage (v : option string) (t : Table) : Table :=
  mkTable (options t) (headers t) (body t) (hidden t) (selectedClass t)
    (checkboxHeader t) (checkboxes t) (paginationStats t) (paginationPrev t)
    (paginationNext t) v (effects t) (rows t) (filteredRows t) (currPage t)
    (itemsPerPage t) (pages t) (sortASC t) (selectedRows t).

Definition set_effects (v : list Effect) (t : Table) : Table :=
  mkTable (options t) (headers t) (body t) (hidden t) (selectedClass t)
    (checkboxHeader t) (checkboxes t) (paginationStats t) (paginationPrev t)
    (paginationNext t) (storedItemsPerPage t) v (rows t) (filteredRows t)
    (currPage t) (itemsPerPage t) (pages t) (sortASC t) (selectedRows t).

Definition set_rows (v : list Row) (t : Table) : Table :=
  mkTable (options t) (headers t) (body t) (hidden t) (selectedClass t)
    (checkboxHeader t) (checkboxes t) (paginationStats t) (paginationPrev t)
    (paginationNext t) (storedItemsPerPage t) (effects t) v (filteredRows t)
    (currPage t) (itemsPerPage t) (pages t) (sortASC t) (selectedRows t).

Definition set_filteredRows (v : option (list Row)) (t : Table) : Table :=
  mkTable (options t) (headers t) (body t) (hidden t) (selectedClass t)
    (checkboxHeader t) (checkboxes t) (paginationStats t) (paginationPrev t)
    (paginationNext t) (storedItemsPerPage t) (effects t) (rows t) v
    (currPage t) (itemsPerPage t) (pages t) (sortASC t) (selectedRows t).

Definition set_currPage (v : nat) (t : Table) : Table :=
  mkTable (options t) (headers t) (body t) (hidden t) (selectedClass t)
    (checkboxHeader t) (checkboxes t) (paginationStats t) (paginationPrev t)
    (paginationNext t) (storedItemsPerPage t) (effects t) (rows t)
    (filteredRows t) v (itemsPerPage t) (pages t) (sortASC t) (selectedRows t).

Definition set_itemsPerPage (v : nat) (t : Table) : Table :=
  mkTable (options t) (headers t) (body t) (hidden t) (selectedClass t)
    (checkboxHeader t) (checkboxes t) (paginationStats t) (paginationPrev t)
    (paginationNext t) (storedItemsPerPage t) (effects t) (rows t)
    (filteredRows t) (currPage t) v (pages t) (sortASC t) (selectedRows t).

Definition set_pages (v : nat) (t : Table) : Table :=
  mkTable (options t) (headers t) (body t) (hidden t) (selectedClass t)
    (checkboxHeader t) (checkboxes t) (paginationStats t) (paginationPrev t)
    (paginationNext t) (storedItemsPerPage t) (effects t) (rows t)
    (filteredRows t) (currPage t) (itemsPerPage t) v (sortASC t)
    (selectedRows t).

Definition set_sortASC (v : bool) (t : Table) : Table :=
  mkTable (options t) (headers t) (body t) (hidden t) (selectedClass t)
    (checkboxHeader t) (checkboxes t) (paginationStats t) (paginationPrev t)
    (paginationNext t) (storedItemsPerPage t) (effects t) (rows t)
    (filteredRows t) (currPage t) (itemsPerPage t) (pages t) v
    (selectedRows t).

Definition set_selectedRows (v : Z) (t : Table) : Table :=
  mkTable (options t) (headers t) (body t) (hidden t) (selectedClass t)
    (checkboxHeader t) (checkboxes t) (paginationStats t) (paginationPrev t)
    (paginationNext t) (storedItemsPerPage t) (effects t) (rows t)
    (filteredRows t) (currPage t) (itemsPerPage t) (pages t) (sortASC t) v.

Inductive Outcome :=
  | Returned (t : Table)
  | Thrown (e : Exn) (t : Table).

(** ** Showing and hiding rows *)

(** [row.hide()] adds [mdf-hidden], [row.show()] removes it. *)
Definition hide (h : gset nat) (row : Row) : gset nat := {[rowId row]} ∪ h.
Definition show (h : gset nat) (row : Row) : gset nat := h ∖ {[rowId row]}.

(** [for (const row of l) row.hide()] and the same loop with [show]. *)
Definition hideAll (l : list Row) (t : Table) : Table :=
  set_hidden (foldl hide (hidden t) l) t.
Definition showAll (l : list Row) (t : Table) : Table :=
  set_hidden (foldl show (hidden t) l) t.

Definition isVisible (t : Table) (row : Row) : bool :=
  bool_decide (rowId row ∉ hidden t).

Definition visible (t : Table) (row : Row) : Prop := rowId row ∉ hidden t.

(** ** [filter] *)

(** Truthiness of the optional [column] argument: [undefined] and [0] are
    both falsy. *)
Definition truthy (column : option nat) : bool :=
  match column with
  | Some (S _) => true
  | _ => false
  end.

(** The callback given to [this.rows.filter].  Reading [textContent] of a
    cell that does not exist is a TypeError. *)
Definition filterCallback (value : string) (column : option nat) (el : Row)
  : Exn + bool :=
  if truthy column then
    match cells el !! default 0 column with
    | Some cell => inr (includes (toUpperCase (textContent cell)) (toUpperCase value))
    | None => inl TypeError
    end
  else inr (includes (toUpperCase (rowTextContent el)) (toUpperCase value)).

(** [Array.prototype.filter] with a callback that may throw: a fresh
    array of the elements the callback accepts, in order. *)
Fixpoint Array_filter {A : Type} (callback : A → Exn + bool) (l : list A)
  : Exn + list A :=
  match l with
  | [] => inr []
  | x :: l' =>
      match callback x with
      | inl e => inl e
      | inr keep =>
          match Array_filter callback l' with
          | inl e => inl e
          | inr kept => inr (if keep then x :: kept else kept)
          end
      end
  end.

Definition filter (value : string) (column : option nat) (t : Table) : Outcome :=
  match Array_filter (filterCallback value column) (rows t) with
  | inl e => Thrown e t
  | inr matching =>
      let t := set_filteredRows (Some matching) t in
      let t := hideAll (rows t) t in
      let t := showAll matching t in
      Returned t
  end.

(** ** Pagination *)

(** [this.filteredRows ? this.filteredRows : this.rows].  An empty array
    is truthy. *)
Definition universe (t : Table) : list Row :=
  match filteredRows t with
  | Some matching => matching
  | None => rows t
  end.

(** [l.slice(from, to)] for [from <= to]. *)
Definition slice (from to : nat) (l : list Row) : list Row :=
  take (to - from) (drop from l).

(** [Math.ceil(total / limit)] for a positive [limit].  (With [limit = 0]
    JavaScript yields Infinity or NaN, which [nat] cannot express; the
    statements below are about positive page sizes.) *)
Definition ceilDiv (total limit : nat) : nat :=
  total / limit + (if total mod limit =? 0 then 0 else 1).

Definition updatePageLimit (t : Table) : Table :=
  set_storedItemsPerPage (Some (pretty (itemsPerPage t))) t.

Definition statsText (first last total : nat) : string :=
  pretty first +:+ "-" +:+ pretty last +:+ " of " +:+ pretty total.

Definition addDisabled (c : Control) : Control :=
  mkControl true (controlClick c) (controlListening c).
Definition removeDisabled (c : Control) : Control :=
  mkControl false (controlClick c) (controlListening c).
(** [addClass('click', classes.paginationControlDisabled)]. *)
Definition addClickDisabled (c : Control) : Control :=
  mkControl true true (controlListening c).
Definition addClickListener (c : Control) : Control :=
  mkControl (controlDisabled c) (controlClick c) true.

Definition dispatch (e : Effect) (t : Table) : Table :=
  set_effects (effects t ++ [e]) t.

(** The pagination container and its stats, previous and next elements
    are present: the constructor calls [paginate] only then. *)
Definition paginate (limit : nat) (t : Table) : Table :=
  let t := set_itemsPerPage limit t in
  let t := if optSavePreferences (options t) then updatePageLimit t else t in
  let rowsToShow := universe t in
  let t := showAll rowsToShow t in
  let t := set_currPage 1 t in
  let rowsTotal := length (universe t) in
  let rowsToHide := drop (itemsPerPage t) (universe t) in
  let t := set_pages (ceilDiv rowsTotal (itemsPerPage t)) t in
  let t :=
    if 1 <? pages t then
      let paginateFrom := itemsPerPage t * (currPage t - 1) in
      let paginateTo := paginateFrom + itemsPerPage t in
      let t := set_paginationStats (statsText (paginateFrom + 1) paginateTo rowsTotal) t in
      let t := hideAll rowsToHide t in
      let t := set_paginationPrev (addClickListener (paginationPrev t)) t in
      let t := set_paginationNext (addClickListener (paginationNext t)) t in
      let t := set_paginationPrev (addDisabled (paginationPrev t)) t in
      set_paginationNext (removeDisabled (paginationNext t)) t
    else
      let t := showAll (universe t) t in
      let t := set_paginationStats (statsText 1 rowsTotal rowsTotal) t in
      let t := set_paginationPrev (addClickDisabled (paginationPrev t)) t in
      set_paginationNext (addClickDisabled (paginationNext t)) t in
  (* the event carries the outer [rowsToShow]: every row of the universe *)
  dispatch (Paginated (currPage t) rowsToShow) t.

Definition scrollIfEnabled (t : Table) : Table :=
  if optScrollIntoView (options t) then dispatch ScrollIntoView t else t.

Definition prevPage (t : Table) : Table :=
  if currPage t <? 2 then t else
  let t := set_currPage (currPage t - 1) t in
  let paginateFrom := itemsPerPage t * (currPage t - 1) in
  let paginateTo := paginateFrom + itemsPerPage t in
  let rowsToShow := slice paginateFrom paginateTo (universe t) in
  let t := hideAll (rows t) t in
  let t := showAll rowsToShow t in
  let rowsTotal := length (universe t) in
  let t := set_paginationStats (statsText (paginateFrom + 1) paginateTo rowsTotal) t in
  let t := if currPage t =? 1
           then set_paginationPrev (addDisabled (paginationPrev t)) t else t in
  let t := set_paginationNext (removeDisabled (paginationNext t)) t in
  let t := scrollIfEnabled t in
  dispatch (Paginated (currPage t) rowsToShow) t.

Definition nextPage (t : Table) : Table :=
  if currPage t =? pages t then t else
  let t := set_currPage (currPage t + 1) t in
  let paginateFrom := itemsPerPage t * (currPage t - 1) in
  let paginateTo := paginateFrom + itemsPerPage t in
  let rowsToShow := slice paginateFrom paginateTo (universe t) in
  let t := hideAll (rows t) t in
  let t := showAll rowsToShow t in
  let rowsTotal := length (universe t) in
  let t := set_paginationStats
             (statsText (paginateFrom + 1)
                (if currPage t =? pages t then rowsTotal else paginateTo) rowsTotal) t in
  let t := if currPage t =? pages t
           then set_paginationNext (addDisabled (paginationNext t)) t else t in
  let t := set_paginationPrev (removeDisabled (paginationPrev t)) t in
  let t := scrollIfEnabled t in
  dispatch (Paginated (currPage t) rowsToShow) t.

(** ** Sorting *)

(** [Array.prototype.sort(comparefn)] as ECMAScript specifies it: the
    elements are first read into a list, the list is sorted by "an
    implementation-defined sequence of calls" to the comparator, and only
    then written back; when a call to the comparator throws, no further
    call is made and the exception is returned, so the array keeps its
    elements in place.

    A [SortPlan] is such a sequence of calls: it either finishes with the
    order to write back (indices into the list that was read), or asks to
    compare the elements at two indices and continues according to the
    number the comparator returns. *)
Inductive SortPlan :=
  | Finish (order : list nat)
  | Compare (i j : nat) (next : Z → SortPlan).

(** The comparator applied to two positions of the list.  A position that
    holds no element reads [undefined], which sorts last without a call to
    the comparator. *)
Definition SortCompare (comparefn : Row → Row → Exn + Z) (l : list Row)
  (i j : nat) : Exn + Z :=
  match l !! i, l !! j with
  | Some a, Some b => comparefn a b
  | None, None => inr 0%Z
  | None, Some _ => inr 1%Z
  | Some _, None => inr (-1)%Z
  end.

Fixpoint runPlan (p : SortPlan) (compare : nat → nat → Exn + Z)
  : Exn + list nat :=
  match p with
  | Finish order => inr order
  | Compare i j next =>
      match compare i j with
      | inl e => inl e
      | inr v => runPlan (next v) compare
      end
  end.

(** The pairs of elements the comparator is called on, in order, up to
    and including a call that throws. *)
Fixpoint comparisons (p : SortPlan) (comparefn : Row → Row → Exn + Z)
  (l : list Row) : list (Row * Row) :=
  match p with
  | Finish _ => []
  | Compare i j next =>
      let called :=
        match l !! i, l !! j with
        | Some a, Some b => [(a, b)]
        | _, _ => []
        end in
      match SortCompare comparefn l i j with
      | inl _ => called
      | inr v => called ++ comparisons (next v) comparefn l
      end
  end.

(** An insertion sort written as a plan; it stands for the engine in the
    concrete runs below.  [insertPlan x sorted k] inserts position [x]
    into the sorted positions and hands the result to [k]. *)
Fixpoint insertPlan (x : nat) (sorted : list nat) (k : list nat → SortPlan)
  : SortPlan :=
  match sorted with
  | [] => k [x]
  | y :: rest =>
      Compare x y (fun v =>
        if (v <=? 0)%Z then k (x :: y :: rest)
        else insertPlan x rest (fun r => k (y :: r)))
  end.

Fixpoint insertionPlan (positions : list nat) (k : list nat → SortPlan)
  : SortPlan :=
  match positions with
  | [] => k []
  | x :: rest => insertionPlan rest (fun sorted => insertPlan x sorted k)
  end.

Definition insertionEngine (len : nat) : SortPlan :=
  insertionPlan (seq 0 len) Finish.

(** [this.body.appendChild(row)] moves the row to the end of the body. *)
Definition appendChild (children : list Row) (row : Row) : list Row :=
  List.filter (fun c => negb (rowId c =? rowId row)) children ++ [row].

Definition formatMessage : string :=
  "Make sure table cells have the data-date-format attribute".

(** The comparator of a Date column.  [d1.hasAttribute] is evaluated
    first; [&&] skips [d2.hasAttribute] when it is false. *)
Definition dateComparator (asc : bool) (column : nat) (a b : Row) : Exn + Z :=
  match cells a !! column with
  | None => inl TypeError
  | Some d1 =>
      match dateFormat d1 with
      | None => inl (Error formatMessage)
      | Some f1 =>
          match cells b !! column with
          | None => inl TypeError
          | Some d2 =>
              match dateFormat d2 with
              | None => inl (Error formatMessage)
              | Some f2 =>
                  let s1 := convertStringToDate (textContent d1) f1 in
                  let s2 := convertStringToDate (textContent d2) f2 in
                  inr (compareDates asc s1 s2)
              end
          end
      end
  end.

Definition getSortingOrder (t : Table) : string :=
  if sortASC t then "ASC" else "DESC".

Definition isDateColumn (header : Header) : bool :=
  bool_decide (columnType header = Some "Date").

(** What a click hits: the header cell at some index of [this.headers],
    or an element that does not carry the class
    [mdf-table__header--sortable]. *)
Inductive ClickTarget :=
  | HeaderCell (index : nat)
  | OtherElement.

Definition clearHeader (h : Header) : Header :=
  mkHeader (columnType h) (sortable h) false false false None.

Definition markHeader (asc : bool) (h : Header) : Header :=
  if asc
  then mkHeader (columnType h) (sortable h) true true (headerSortDESC h) (Some "ascending")
  else mkHeader (columnType h) (sortable h) true (headerSortASC h) true (Some "descending").

(** The part of [sortOnClick] before the sort: the order flips, every
    header loses its decoration and the clicked one is marked. *)
Definition toggleOrder (index : nat) (t : Table) : Table :=
  let t := set_sortASC (if sortASC t then false else true) t in
  let t := set_headers (clearHeader <$> headers t) t in
  set_headers (alter (markHeader (sortASC t)) index (headers t)) t.

Definition hasFormat (column : nat) (row : Row) : Prop :=
  ∃ cell f, cells row !! column = Some cell ∧ dateFormat cell = Some f.

Definition lacksFormat (column : nat) (row : Row) : Prop :=
  ∃ cell, cells row !! column = Some cell ∧ dateFormat cell = None.

Section Sorting.

(** The engine's sorting algorithm, by the length of the array, and
    [Intl.Collator(undefined, {numeric: true, sensitivity: 'base'})
    .compare] are supplied by the host. *)
Variable engine : nat → SortPlan.
Variable collatorCompare : string → string → Z.

Definition Array_sort (l : list Row) (comparefn : Row → Row → Exn + Z)
  : Exn + list Row :=
  match runPlan (engine (length l)) (SortCompare comparefn l) with
  | inl e => inl e
  | inr order => inr (omap (fun i => l !! i) order)
  end.

Definition textComparator (asc : bool) (column : nat) (a b : Row) : Exn + Z :=
  match cells a !! column, cells b !! column with
  | Some c1, Some c2 =>
      let s1 := textContent c1 in
      let s2 := textContent c2 in
      inr (if asc then collatorCompare s1 s2 else collatorCompare s2 s1)
  | _, _ => inl TypeError
  end.

Definition sortColumn (column : nat) (t : Table) : Outcome :=
  match headers t !! column with
  | None => Thrown TypeError t
  | Some header =>
      let comparefn :=
        if isDateColumn header
        then dateComparator (sortASC t) column
        else textComparator (sortASC t) column in
      match Array_sort (rows t) comparefn with
      | inl e => Thrown e t
      | inr sorted =>
          let t := set_rows sorted t in
          let t := set_body (foldl appendChild (body t) (rows t)) t in
          Returned (dispatch (Sorted column (getSortingOrder t)) t)
      end
  end.

Definition sortOnClick (target : ClickTarget) (t : Table) : Outcome :=
  match target with
  | OtherElement => Returned t
  | HeaderCell index =>
      match headers t !! index with
      | None => Returned t
      | Some clicked =>
          if negb (sortable clicked) then Returned t else
          let t := toggleOrder index t in
          match sortColumn index t with
          | Thrown e t => Thrown e t
          | Returned t =>
              if optPaginate (options t) then
                let rows := universe t in
                let t := hideAll rows t in
                let paginateFrom := itemsPerPage t * (currPage t - 1) in
                let paginateTo := paginateFrom + itemsPerPage t in
                let rowsToShow := slice paginateFrom paginateTo rows in
                Returned (showAll rowsToShow t)
              else Returned t
          end
      end
  end.

(** The pairs of rows the date comparator is called on when column
    [column] of [t] is sorted. *)
Definition comparedPairs (column : nat) (t : Table) : list (Row * Row) :=
  comparisons (engine (length (rows t)))
    (dateComparator (sortASC t) column) (rows t).

End Sorting.

(** ** Row selection: [checkboxEvents] *)

(** The target of an [input] event inside the table: the header's
    checkbox, the checkbox input at some position of [checkboxes], or an
    input that is no checkbox. *)
Inductive InputTarget :=
  | HeaderInput
  | RowInput (i : nat)
  | OtherInput.

(** The constructor's part in the selection state (lines 93 to 102): the
    counter starts at 0 whatever the markup has checked. *)
Definition initSelection (t : Table) : Table := set_selectedRows 0%Z t.

(** What the browser does to the checkbox before it fires [input]: the
    checked state flips, and an indeterminate box stops being so. *)
Definition toggleBox (b : RowCheckbox) : RowCheckbox :=
  mkRowCheckbox (boxRow b) (negb (boxChecked b)).

Definition activate (target : InputTarget) (t : Table) : Table :=
  match target with
  | HeaderInput =>
      let h := checkboxHeader t in
      set_checkboxHeader (mkHeaderCheckbox (negb (checked h)) false (indeterminateClass h)) t
  | RowInput i => set_checkboxes (alter toggleBox i (checkboxes t)) t
  | OtherInput => t
  end.

(** The setters of [MDFCheckbox]. *)
Definition setChecked (v : bool) (h : HeaderCheckbox) : HeaderCheckbox :=
  mkHeaderCheckbox v (indeterminate h) (indeterminateClass h).
Definition setIndeterminate (v : bool) (h : HeaderCheckbox) : HeaderCheckbox :=
  mkHeaderCheckbox (checked h) v v.

Definition setBox (v : bool) (b : RowCheckbox) : RowCheckbox :=
  mkRowCheckbox (boxRow b) v.

Definition addSelected (s : gset nat) (row : Row) : gset nat := {[rowId row]} ∪ s.
Definition removeSelected (s : gset nat) (row : Row) : gset nat := s ∖ {[rowId row]}.

(** The three-way test that follows a row checkbox's change. *)
Definition deriveHeader (t : Table) : Table :=
  let n := Z.of_nat (length (rows t)) in
  if (selectedRows t <=? 0)%Z then
    let t := set_checkboxHeader (setChecked false (checkboxHeader t)) t in
    set_checkboxHeader (setIndeterminate false (checkboxHeader t)) t
  else if ((0 <? selectedRows t) && (selectedRows t <? n))%Z then
    let t := set_checkboxHeader (setChecked false (checkboxHeader t)) t in
    set_checkboxHeader (setIndeterminate true (checkboxHeader t)) t
  else if (selectedRows t =? n)%Z then
    let t := set_checkboxHeader (setChecked true (checkboxHeader t)) t in
    set_checkboxHeader (setIndeterminate false (checkboxHeader t)) t
  else t.

(** Every checkbox input of the table lies in a row element, so [closest]
    finds one; the header checkbox of the component is the one in this
    table's head. *)
Definition checkboxEvents (target : InputTarget) (t : Table) : Table :=
  match target with
  | HeaderInput =>
      let t := set_checkboxHeader (setIndeterminate false (checkboxHeader t)) t in
      if checked (checkboxHeader t) then
        let t := set_checkboxes (setBox true <$> checkboxes t) t in
        let t := set_selectedClass (foldl addSelected (selectedClass t) (rows t)) t in
        set_selectedRows (Z.of_nat (length (rows t))) t
      else
        let t := set_checkboxes (setBox false <$> checkboxes t) t in
        let t := set_selectedClass (foldl removeSelected (selectedClass t) (rows t)) t in
        set_selectedRows 0%Z t
  | RowInput i =>
      match checkboxes t !! i with
      | None => t
      | Some box =>
          let t :=
            if boxChecked box then
              let t := set_selectedRows (selectedRows t + 1)%Z t in
              set_selectedClass ({[boxRow box]} ∪ selectedClass t) t
            else
              let t := set_selectedRows (selectedRows t - 1)%Z t in
              set_selectedClass (selectedClass t ∖ {[boxRow box]}) t in
          deriveHeader t
      end
  | OtherInput => t
  end.

(** A user's change of a checkbox: the browser's part, then the handler. *)
Definition inputEvent (t : Table) (target : InputTarget) : Table :=
  checkboxEvents target (activate target t).


Definition countChecked (boxes : list RowCheckbox) : nat :=
  length (List.filter boxChecked boxes).

(** A date string in which no character matches the delimiter class. *)
Fixpoint noDelimiter (s : string) : bool :=
  match s with
  | EmptyString => true
  | String c s' => negb (delimiter c) && noDelimiter s'
  end.

(** The rows a table state can hold: the elements of the row universe are
    pairwise distinct elements and all belong to [this.rows]. *)
Definition wellFormed (t : Table) : Prop :=
  NoDup (rowId <$> universe t) ∧ universe t ⊆ rows t.

(** The state showing page [k] (from 1): [paginate], then [k - 1] clicks
    on the next-page control. *)
Definition pageView (limit : nat) (t : Table) (k : nat) : Table :=
  Nat.iter (k - 1) nextPage (paginate limit t).

(** ** Tables for concrete runs *)

(** The state the constructor leaves before it paginates: nothing hidden
    or selected, no filter, ascending order, counters at 0. *)
Definition construct (opts : Options) (hs : list Header) (rs : list Row)
  (boxes : list RowCheckbox) : Table :=
  mkTable opts hs rs ∅ ∅ (mkHeaderCheckbox false false false) boxes
    EmptyString (mkControl false false false) (mkControl false false false)
    None [] rs None 0 0 0 true 0%Z.

Definition textRow (id : nat) (texts : list string) : Row :=
  mkRow id ((fun s => mkCell s None) <$> texts).

Definition dateRow (id : nat) (date : string) (format : option string) : Row :=
  mkRow id [mkCell date format].

Definition plainHeader : Header := mkHeader None true false false false None.
Definition dateHeader : Header := mkHeader (Some "Date") true false false false None.

Definition paging : Options := mkOptions true true false false.
Definition noPaging : Options := mkOptions true false false false.

(** Three one-cell rows. *)
Definition threeRows : list Row :=
  [textRow 0 ["Charlie"]; textRow 1 ["alice"]; textRow 2 ["Bob"]].

(** A byte-wise comparison standing in for the collator in concrete
    runs. *)
Definition byteCompare (a b : string) : Z :=
  match String.compare (toUpperCase a) (toUpperCase b) with
  | Lt => (-1)%Z
  | Eq => 0%Z
  | Gt => 1%Z
  end.

(** A date column whose second cell carries no format, and one whose
    cells all do. *)
Definition missingFormat : Table :=
  construct noPaging [dateHeader]
    [dateRow 0 "01/02/2020" (Some "MDY"); dateRow 1 "03/04/2019" None] [].

Definition allFormats : Table :=
  construct noPaging [dateHeader]
    [dateRow 0 "01/02/2020" (Some "MDY"); dateRow 1 "03/04/2019" (Some "MDY")] [].

(** Three rows, two per page, and the state after a click on the header
    of the only column. *)
Definition twoPerPage : Table :=
  paginate 2 (construct paging [plainHeader] threeRows []).

Definition stateOf (o : Outcome) : Table :=
  match o with
  | Returned t' => t'
  | Thrown _ t' => t'
  end.

Definition afterClick : Table :=
  stateOf (sortOnClick insertionEngine byteCompare (HeaderCell 0) twoPerPage).

(** Three rows filtered with the empty value, one per page, and the state
    after two clicks on the header: the second click sorts ascending. *)
Definition filteredOnePerPage : Table :=
  paginate 1 (stateOf (filter EmptyString None
                         (construct paging [plainHeader] threeRows []))).

Definition afterTwoClicks : Table :=
  stateOf (sortOnClick insertionEngine byteCompare (HeaderCell 0)
    (stateOf (sortOnClick insertionEngine byteCompare (HeaderCell 0)
                filteredOnePerPage))).


(** Two rows with unchecked checkboxes. *)
Definition uncheckedMarkup : Table :=
  initSelection
    (construct noPaging [plainHeader] [textRow 0 ["a"]; textRow 1 ["b"]]
       [mkRowCheckbox 0 false; mkRowCheckbox 1 false]).


(** ** Further operations of the component *)

(** Clicks on the pagination controls, and the state they lead to from
    [paginate]. *)
Inductive PageClick :=
  | PrevClick
  | NextClick.

Definition clickPage (t : Table) (c : PageClick) : Table :=
  match c with
  | PrevClick => prevPage t
  | NextClick => nextPage t
  end.

Definition navigate (limit : nat) (t : Table) (clicks : list PageClick) : Table :=
  foldl clickPage (paginate limit t) clicks.

(** The text [paginate], [prevPage] and [nextPage] write for page [page]
    of [total] rows: the last page ends at the last row. *)
Definition pageStats (limit page total : nat) : string :=
  statsText (limit * (page - 1) + 1) (Nat.min (limit * page) total) total.

(** [getSelectedRows]: the rows of the table carrying the selected class,
    in document order (the rows of the head do not carry it). *)
Definition getSelectedRows (t : Table) : list Row :=
  List.filter (fun r => bool_decide (rowId r ∈ selectedClass t)) (body t).

(** [getItemsPerPage]: the stored preference when the item exists and is
    not the empty string, converted by unary plus; the field otherwise. *)
Definition getItemsPerPage (t : Table) : Num :=
  match storedItemsPerPage t with
  | Some (String c s) => toNumber (Some (String c s))
  | _ => Int (Z.of_nat (itemsPerPage t))
  end.

(** [String.prototype.truncate] of the base module.  [substr(0, limit - 1)]
    is empty for [limit = 0], as a negative length counts as 0. *)
Definition truncate (limit : nat) (s : string) : string :=
  if limit <? String.length s
  then String.substring 0 (limit - 1) s +:+ "..."
  else s.

(** The text of a header cell and its [data-tooltip] attribute. *)
Record HeaderLabel := mkHeaderLabel {
  labelText : string;
  tooltip : option string
}.

Definition truncateHeader (charLimit : nat) (header : HeaderLabel) : HeaderLabel :=
  let origStr := labelText header in
  if charLimit <? String.length (labelText header)
  then mkHeaderLabel (truncate charLimit origStr) (Some origStr)
  else header.

Definition truncateHeaders (charLimit : nat) (hs : list HeaderLabel)
  : list HeaderLabel :=
  if 0 <? charLimit then truncateHeader charLimit <$> hs else hs.

(** [ariaRowCount] over the [tr] elements of the table, in document
    order: the value of [aria-rowcount], and the value of [aria-rowindex]
    each [tr] receives. *)
Definition ariaRowCount {A : Type} (trs : list A) : string * list string :=
  let rowCount := pretty (length trs) in
  let loop :=
    foldl (fun (acc : nat * list string) (_ : A) =>
             let counter := fst acc + 1 in
             (counter, snd acc ++ [pretty counter]))
          (0, []) trs in
  (rowCount, snd loop).

(** The spacing of the table: the class [mdf-table--condensed] on the
    container, the [mirai-table-spacing] item of localStorage, and the
    number of [unload] listeners [toggleSpacing] has added. *)
Record Spacing := mkSpacing {
  condensed : bool;
  storedSpacing : option string;
  unloadListeners : nat
}.

Definition updateSpacing (s : Spacing) : Spacing :=
  mkSpacing (condensed s)
    (Some (if condensed s then "condensed" else "regular"))
    (unloadListeners s).

Definition applySpacing (s : Spacing) : Spacing :=
  match storedSpacing s with
  | Some v =>
      if decide (v = "regular")
      then mkSpacing false (storedSpacing s) (unloadListeners s)
      else if decide (v = "condensed")
      then mkSpacing true (storedSpacing s) (unloadListeners s)
      else s
  | None => s
  end.

(** The listener [toggleSpacing] registers is [() => this.updateSpacing]:
    it reads the method and returns it without a call. *)
Definition unloadListener (s : Spacing) : Spacing := s.

Definition toggleSpacing (savePreferences : bool) (s : Spacing) : Spacing :=
  let s := mkSpacing (negb (condensed s)) (storedSpacing s) (unloadListeners s) in
  if savePreferences
  then mkSpacing (condensed s) (storedSpacing s) (unloadListeners s + 1)
  else s.

(** The page unloads: every registered listener runs. *)
Definition unload (s : Spacing) : Spacing :=
  Nat.iter (unloadListeners s) unloadListener s.

(** The constructor's part in the spacing (lines 120 to 123), on a fresh
    page whose container has the class or not. *)
Definition restoreSpacing (savePreferences : bool) (markupCondensed : bool)
  (stored : option string) : Spacing :=
  let s := mkSpacing markupCondensed stored 0 in
  match stored with
  | Some (String _ _) => if savePreferences then applySpacing s else s
  | _ => s
  end.

Inductive SpacingEvent :=
  | ToggleSpacing
  | Unload.

Definition spacingStep (savePreferences : bool) (s : Spacing) (e : SpacingEvent)
  : Spacing :=
  match e with
  | ToggleSpacing => toggleSpacing savePreferences s
  | Unload => unload s
  end.

(** Rows and their checkboxes as the documented markup has them: the
    checkbox at position [i] lies in the row at position [i], the rows are
    distinct elements, the body holds them in the order of [this.rows],
    and a row carries the selected class exactly when its box is checked. *)
Definition boxesAligned (t : Table) : Prop :=
  boxRow <$> checkboxes t = rowId <$> rows t ∧
  NoDup (rowId <$> rows t) ∧
  body t = rows t ∧
  ∀ b, b ∈ checkboxes t → (boxRow b ∈ selectedClass t ↔ boxChecked b = true).

(** What the pagination state is after [paginate limit] on [t] and any
    clicks: the row arrays and the page size are those of [t], the page
    number lies within the pages, the previous control is disabled exactly
    on page 1 and the next control exactly on the last page, and the stats
    text is that of the page. *)
Definition paged (limit : nat) (t s : Table) : Prop :=
  rows s = rows t ∧ filteredRows s = filteredRows t ∧
  itemsPerPage s = limit ∧
  pages s = ceilDiv (length (universe t)) limit ∧
  1 ≤ currPage s ≤ pages s ∧
  controlDisabled (paginationPrev s) = (currPage s =? 1) ∧
  controlDisabled (paginationNext s) = (currPage s =? pages s) ∧
  paginationStats s = pageStats limit (currPage s) (length (universe t)).

(** The rows of the universe that are visible are those of the slice of
    the current page. *)
Definition showsCurrentPage (limit : nat) (t s : Table) : Prop :=
  ∀ r, r ∈ universe t →
    visible s r ↔
    r ∈ slice (limit * (currPage s - 1)) (limit * (currPage s - 1) + limit)
          (universe t).


Definition sampleClicks : list PageClick :=
  [NextClick; NextClick; NextClick; PrevClick; PrevClick; PrevClick; NextClick].

(** Three rows paged by one, then filtered with a value no row contains
    and paged again. *)
Definition nothingMatches : Table :=
  stateOf (filter "zzz" None (paginate 1 (construct paging [plainHeader] threeRows []))).

(** The scroll request of [prevPage] and [nextPage], when the option asks
    for one. *)
Definition scrollEffect (t : Table) : list Effect :=
  if optScrollIntoView (options t) then [ScrollIntoView] else [].

(** The number of [toggleSpacing] calls among the events. *)
Definition toggles (events : list SpacingEvent) : nat :=
  length (List.filter (fun e => match e with ToggleSpacing => true | Unload => false end)
            events).

(** * Properties *)

Arguments paginate : simpl never.
Arguments nextPage : simpl never.
Arguments prevPage : simpl never.

(** ** Rows shown and hidden *)

Lemma elem_of_foldl_hide (l : list Row) (h : gset nat) (x : nat) :
  x ∈ foldl hide h l ↔ x ∈ h ∨ x ∈ rowId <$> l.
Proof.
  revert h. induction l as [|r l IH]; intros h; simpl.
  - set_solver.
  - rewrite IH. unfold hide. set_solver.
Qed.

Lemma elem_of_foldl_show (l : list Row) (h : gset nat) (x : nat) :
  x ∈ foldl show h l ↔ x ∈ h ∧ x ∉ rowId <$> l.
Proof.
  revert h. induction l as [|r l IH]; intros h; simpl.
  - set_solver.
  - rewrite IH. unfold show. set_solver.
Qed.

(** Distinct identities make membership of a row a matter of its
    identity. *)
Lemma rowId_inj_on (l : list Row) (a b : Row) :
  NoDup (rowId <$> l) → a ∈ l → b ∈ l → rowId a = rowId b → a = b.
Proof.
  induction l as [|x l IH]; intros Hnd Ha Hb Hid.
  - inversion Ha.
  - rewrite fmap_cons in Hnd. apply NoDup_cons in Hnd as [Hx Hnd].
    apply elem_of_cons in Ha as [->|Ha]; apply elem_of_cons in Hb as [->|Hb];
      try done.
    + exfalso. apply Hx. rewrite Hid. by apply list_elem_of_fmap_2.
    + exfalso. apply Hx. rewrite <- Hid. by apply list_elem_of_fmap_2.
    + by apply IH.
Qed.

Lemma rowId_elem_of (l m : list Row) (r : Row) :
  NoDup (rowId <$> l) → m ⊆ l → r ∈ l →
  rowId r ∈ rowId <$> m ↔ r ∈ m.
Proof.
  intros Hnd Hsub Hr. split.
  - intros [r' [Hid Hr']]%list_elem_of_fmap.
    assert (r = r') as -> by (eapply rowId_inj_on; eauto). done.
  - intros ?. by apply list_elem_of_fmap_2.
Qed.

(** ** [filter] *)

Lemma includes_empty (s : string) : includes s EmptyString = true.
Proof. by destruct s. Qed.

Lemma Array_filter_sublist {A : Type} (cb : A → Exn + bool) (l m : list A) :
  Array_filter cb l = inr m → sublist m l.
Proof.
  revert m. induction l as [|x l IH]; intros m; simpl.
  - intros [= <-]. constructor.
  - destruct (cb x) as [e|keep]; [done|].
    destruct (Array_filter cb l) as [e|kept]; [done|].
    intros [= <-]. destruct keep.
    + apply sublist_skip. by apply IH.
    + apply sublist_cons. by apply IH.
Qed.


Lemma Array_filter_all {A : Type} (cb : A → Exn + bool) (l : list A) :
  (∀ x, cb x = inr true) → Array_filter cb l = inr l.
Proof.
  intros Hcb. induction l as [|x l IH]; simpl; [done|].
  by rewrite Hcb, IH.
Qed.

Lemma sublist_slice (from to : nat) (l : list Row) : sublist (slice from to l) l.
Proof.
  unfold slice. etrans; [apply sublist_take|apply sublist_drop].
Qed.

(** What [filter] leaves behind when it returns. *)
Lemma filter_returned (value : string) (column : option nat) (t t' : Table) :
  filter value column t = Returned t' →
  ∃ matching,
    Array_filter (filterCallback value column) (rows t) = inr matching ∧
    t' = showAll matching (hideAll (rows t) (set_filteredRows (Some matching) t)).
Proof.
  unfold filter. destruct (Array_filter _ _) as [e|matching]; [done|].
  intros [= <-]. by exists matching.
Qed.


(** C5: with column index 0 the callback takes the branch without a
    column, so [filter(v, 0)] is [filter(v)]: a row whose first cell does
    not contain the value is kept when another cell does. *)
Theorem filter_column_zero_unrestricted :
  (∀ value t, filter value (Some 0) t = filter value None t) ∧
  (let t := construct noPaging [plainHeader; plainHeader] [textRow 0 ["a"; "b"]] [] in
   includes (toUpperCase "a") (toUpperCase "b") = false ∧
   ∃ t', filter "b" (Some 0) t = Returned t' ∧
         filteredRows t' = Some [textRow 0 ["a"; "b"]]).
Proof.
  split; [done|]. simpl. split; [done|]. eexists. split; [reflexivity|done].
Qed.

(** For a column index from 1 on the test does look at that cell only. *)
Lemma filter_column_positive (value : string) (c : nat) (el : Row) (cell : Cell) :
  cells el !! S c = Some cell →
  filterCallback value (Some (S c)) el
  = inr (includes (toUpperCase (textContent cell)) (toUpperCase value)).
Proof. intros H. unfold filterCallback. simpl. by rewrite H. Qed.

(** ** What [paginate] computes *)

(** Unfolds an operation down to the record fields and decides the
    branches met on the way. *)
Ltac fields :=
  repeat match goal with t : Table |- _ => destruct t end;
  unfold universe, scrollIfEnabled, dispatch, hideAll, showAll, updatePageLimit;
  simpl in *; repeat (case_match; simpl in *); simplify_eq; try done;
  try congruence.

Lemma paginate_fields (limit : nat) (t : Table) :
  let t' := paginate limit t in
  rows t' = rows t ∧ filteredRows t' = filteredRows t ∧
  itemsPerPage t' = limit ∧ currPage t' = 1 ∧
  pages t' = ceilDiv (length (universe t)) limit.
Proof. unfold paginate. fields. Qed.

Lemma paginate_hidden (limit : nat) (t : Table) :
  hidden (paginate limit t)
  = if 1 <? ceilDiv (length (universe t)) limit
    then foldl hide (foldl show (hidden t) (universe t)) (drop limit (universe t))
    else foldl show (foldl show (hidden t) (universe t)) (universe t).
Proof. unfold paginate. fields. Qed.

Lemma filterCallback_empty (el : Row) : filterCallback EmptyString None el = inr true.
Proof. unfold filterCallback. simpl. by rewrite includes_empty. Qed.

(** C3, as the specification has it, fails: after [filter("")] the stored
    filtered rows are an array, not [undefined]. *)
Lemma filter_empty_keeps_filteredRows :
  ∃ t', filter EmptyString None (construct paging [plainHeader] threeRows []) = Returned t' ∧
        filteredRows t' ≠ None.
Proof. eexists. split; [reflexivity|done]. Qed.

(** C3, amended: [filter("")] matches every row and makes every row
    visible; it stores a copy of all rows, in their current order, as the
    filtered rows, so a following [paginate] counts the pages from the
    full number of rows. *)
Theorem filter_empty_matches_all (t : Table) :
  ∃ t', filter EmptyString None t = Returned t' ∧
        rows t' = rows t ∧
        filteredRows t' = Some (rows t) ∧
        (∀ r, r ∈ rows t → visible t' r) ∧
        (∀ limit, pages (paginate limit t') = ceilDiv (length (rows t)) limit).
Proof.
  unfold filter.
  rewrite (Array_filter_all _ _ filterCallback_empty).
  exists (showAll (rows t) (hideAll (rows t) (set_filteredRows (Some (rows t)) t))).
  split; [reflexivity|]. split; [done|]. split; [done|]. split.
  - intros r Hr. unfold visible; simpl.
    rewrite elem_of_foldl_show. intros [_ Hn]. apply Hn.
    by apply list_elem_of_fmap_2.
  - intros limit.
    by destruct (paginate_fields limit
      (showAll (rows t) (hideAll (rows t) (set_filteredRows (Some (rows t)) t))))
      as (_ & _ & _ & _ & ->).
Qed.

(** ** Page boundaries *)

(** C9: on page 1 [prevPage] returns at once, and on the last page
    [nextPage] does: the whole state, the log of dispatched events
    included, is what it was. *)
Theorem page_boundary_noop (t : Table) :
  (currPage t = 1 → prevPage t = t) ∧
  (currPage t = pages t → nextPage t = t).
Proof.
  split; intros H.
  - unfold prevPage. by rewrite H.
  - unfold nextPage. by rewrite H, Nat.eqb_refl.
Qed.

Lemma page_boundary_noop_witness :
  (let t := paginate 1 (construct paging [plainHeader] threeRows []) in
   currPage t = 1 ∧ prevPage t = t) ∧
  (let t := pageView 1 (construct paging [plainHeader] threeRows []) 3 in
   currPage t = pages t ∧ nextPage t = t).
Proof.
  split; simpl.
  - split; [reflexivity|].
    apply (proj1 (page_boundary_noop _)). reflexivity.
  - split; [reflexivity|].
    apply (proj2 (page_boundary_noop _)). reflexivity.
Defined.

(** ** Coverage of the pages *)

Lemma nextPage_fields (t : Table) :
  currPage t ≠ pages t →
  let t' := nextPage t in
  rows t' = rows t ∧ filteredRows t' = filteredRows t ∧
  itemsPerPage t' = itemsPerPage t ∧ pages t' = pages t ∧
  currPage t' = currPage t + 1 ∧
  hidden t' = foldl show (foldl hide (hidden t) (rows t))
                (slice (itemsPerPage t * currPage t)
                       (itemsPerPage t * currPage t + itemsPerPage t) (universe t)).
Proof.
  intros Hne. unfold nextPage.
  destruct (currPage t =? pages t) eqn:E; [by apply Nat.eqb_eq in E|].
  clear E Hne. fields; repeat split; by replace (currPage0 + 1 - 1) with currPage0 by lia.
Qed.

(** [ceilDiv] is the ceiling of the quotient: the least number of pages of
    [limit] rows that hold [total] rows. *)
Lemma ceilDiv_ceiling (total limit : nat) :
  1 ≤ limit →
  total ≤ limit * ceilDiv total limit ∧
  ∀ m, total ≤ limit * m → ceilDiv total limit ≤ m.
Proof.
  intros Hl. unfold ceilDiv.
  pose proof (Nat.div_mod_eq total limit) as Hdm.
  pose proof (Nat.mod_upper_bound total limit ltac:(lia)) as Hub.
  destruct (total mod limit =? 0) eqn:E.
  - apply Nat.eqb_eq in E. split; [nia|]. intros m Hm. nia.
  - apply Nat.eqb_neq in E. split; [nia|]. intros m Hm. nia.
Qed.

Lemma elem_of_slice (from to : nat) (l : list Row) (r : Row) :
  r ∈ slice from to l ↔ ∃ i, l !! i = Some r ∧ from ≤ i < to.
Proof.
  unfold slice. rewrite list_elem_of_lookup. split.
  - intros [i Hi]. apply lookup_take_Some in Hi as [Hi Hlt].
    rewrite lookup_drop in Hi. exists (from + i). split; [done|lia].
  - intros (i & Hi & Hrange). exists (i - from).
    apply lookup_take_Some. split; [|lia].
    rewrite lookup_drop. by replace (from + (i - from)) with i by lia.
Qed.

Lemma pageView_fields (limit : nat) (t : Table) (k : nat) :
  1 ≤ k ≤ pages (paginate limit t) →
  rows (pageView limit t k) = rows t ∧
  filteredRows (pageView limit t k) = filteredRows t ∧
  itemsPerPage (pageView limit t k) = limit ∧
  pages (pageView limit t k) = pages (paginate limit t) ∧
  currPage (pageView limit t k) = k.
Proof.
  intros [Hk1 Hkn]. unfold pageView.
  destruct k as [|k]; [lia|]. replace (S k - 1) with k by lia.
  induction k as [|k IH].
  - change (Nat.iter 0 nextPage (paginate limit t)) with (paginate limit t).
    destruct (paginate_fields limit t) as (? & ? & ? & ? & ?). done.
  - rewrite Nat.iter_succ. destruct IH as (Hr & Hf & Hi & Hp & Hc); [lia..|].
    set (v := Nat.iter k nextPage (paginate limit t)) in *.
    destruct (nextPage_fields v) as (Hr' & Hf' & Hi' & Hp' & Hc' & _); [lia|].
    rewrite Hr', Hf', Hi', Hp', Hc'. repeat split; try done. lia.
Qed.

Lemma universe_same (v t : Table) :
  rows v = rows t → filteredRows v = filteredRows t → universe v = universe t.
Proof. unfold universe. by intros -> ->. Qed.

Lemma wellFormed_NoDup (t : Table) : wellFormed t → NoDup (universe t).
Proof. intros [Hnd _]. by apply NoDup_fmap_1 in Hnd. Qed.

(** The rows of the universe that page [k] shows are those of the slice
    [limit * (k - 1), limit * k). *)
Lemma pageView_visible (limit : nat) (t : Table) (k : nat) (r : Row) :
  1 ≤ limit → wellFormed t →
  1 ≤ k ≤ pages (paginate limit t) → r ∈ universe t →
  visible (pageView limit t k) r ↔
  r ∈ slice (limit * (k - 1)) (limit * (k - 1) + limit) (universe t).
Proof.
  intros Hl Hwf [Hk1 Hkn] Hr.
  pose proof (wellFormed_NoDup _ Hwf) as HndU. destruct Hwf as [Hnd Hsub].
  destruct (paginate_fields limit t) as (_ & _ & _ & _ & Hpages).
  destruct (ceilDiv_ceiling (length (universe t)) limit Hl) as [Hceil _].
  destruct (decide (k = 1)) as [->|Hk].
  - unfold pageView, visible.
    change (Nat.iter (1 - 1) nextPage (paginate limit t)) with (paginate limit t).
    rewrite paginate_hidden. rewrite Nat.mul_0_r, Nat.add_0_l.
    rewrite elem_of_slice.
    destruct (1 <? ceilDiv (length (universe t)) limit) eqn:E.
    + rewrite elem_of_foldl_hide, elem_of_foldl_show.
      rewrite (rowId_elem_of (universe t) (drop limit (universe t)) r Hnd); [|apply sublist_subseteq, sublist_drop|done].
      apply list_elem_of_lookup in Hr as [i Hi].
      split.
      * intros Hnot. exists i. split; [done|]. split; [lia|].
        destruct (decide (i < limit)) as [|Hge]; [done|]. exfalso. apply Hnot. right.
        apply list_elem_of_lookup. exists (i - limit). rewrite lookup_drop.
        by replace (limit + (i - limit)) with i by lia.
      * intros (j & Hj & Hjlt) [[_ Hout]|Hin].
        -- apply Hout. apply list_elem_of_fmap_2. apply list_elem_of_lookup; eauto.
        -- apply list_elem_of_lookup in Hin as [m Hm]. rewrite lookup_drop in Hm.
           pose proof (NoDup_lookup _ _ _ _ HndU Hj Hm). lia.
    + apply Nat.ltb_ge in E. split.
      * intros _. apply list_elem_of_lookup in Hr as [i Hi]. exists i. split; [done|].
        apply lookup_lt_Some in Hi. nia.
      * intros _. rewrite !elem_of_foldl_show. intros [_ Hout]. apply Hout.
        by apply list_elem_of_fmap_2.
  - assert (pageView limit t k = nextPage (pageView limit t (k - 1))) as ->.
    { destruct k as [|[|k']]; [lia|lia|]. unfold pageView.
      replace (S (S k') - 1) with (S k') by lia.
      replace (S k' - 1) with k' by lia. apply Nat.iter_succ. }
    destruct (pageView_fields limit t (k - 1)) as (Hr' & Hf' & Hi' & Hp' & Hc'); [lia|].
    set (v := pageView limit t (k - 1)) in *.
    destruct (nextPage_fields v) as (_ & _ & _ & _ & _ & Hh); [lia|].
    unfold visible. rewrite Hh, Hi', Hc', (universe_same v t Hr' Hf'), Hr'.
    rewrite elem_of_foldl_show, elem_of_foldl_hide.
    set (page := slice (limit * (k - 1)) (limit * (k - 1) + limit) (universe t)).
    assert (rowId r ∈ rowId <$> page ↔ r ∈ page) as Hpage.
    { apply (rowId_elem_of (universe t)); [done| |done].
      apply sublist_subseteq, sublist_slice. }
    rewrite Hpage. split.
    + intros Hnot. destruct (decide (r ∈ page)) as [|Hn]; [done|].
      exfalso. apply Hnot. split; [|done]. right.
      apply list_elem_of_fmap_2. by apply Hsub.
    + intros Hin [_ Hn]. done.
Qed.

(** C8: for a page size of at least 1, [paginate] sets the number of
    pages to the ceiling of universe length over page size; page [k]
    shows, of the universe, exactly the slice [limit * (k - 1), limit * k);
    and every row of the universe is shown on one page and one only. *)
Theorem pagination_coverage (limit : nat) (t : Table) :
  1 ≤ limit → wellFormed t →
  pages (paginate limit t) = ceilDiv (length (universe t)) limit ∧
  (length (universe t) ≤ limit * pages (paginate limit t) ∧
   ∀ m, length (universe t) ≤ limit * m → pages (paginate limit t) ≤ m) ∧
  (∀ k r, 1 ≤ k ≤ pages (paginate limit t) → r ∈ universe t →
     visible (pageView limit t k) r ↔
     r ∈ slice (limit * (k - 1)) (limit * k) (universe t)) ∧
  (∀ r, r ∈ universe t →
     ∃ k, (1 ≤ k ≤ pages (paginate limit t) ∧ visible (pageView limit t k) r) ∧
          ∀ k', 1 ≤ k' ≤ pages (paginate limit t) →
                visible (pageView limit t k') r → k' = k).
Proof.
  intros Hl Hwf.
  destruct (paginate_fields limit t) as (_ & _ & _ & _ & Hpages).
  destruct (ceilDiv_ceiling (length (universe t)) limit Hl) as [Hceil Hleast].
  pose proof (wellFormed_NoDup _ Hwf) as HndU.
  assert (∀ k, 1 ≤ k → limit * (k - 1) + limit = limit * k) as Hmul by (intros; nia).
  split; [done|]. split; [by rewrite Hpages|]. split.
  - intros k r Hk Hr. rewrite <- (Hmul k) by lia. by apply pageView_visible.
  - intros r Hr. pose proof Hr as Hr0.
    apply list_elem_of_lookup in Hr as [i Hi].
    pose proof (lookup_lt_Some _ _ _ Hi) as Hlt.
    pose proof (Nat.div_mod_eq i limit) as Hdm.
    pose proof (Nat.mod_upper_bound i limit ltac:(lia)) as Hub.
    exists (i / limit + 1). split; [split|].
    + rewrite Hpages. split; [lia|].
      assert (i / limit < ceilDiv (length (universe t)) limit); [nia|lia].
    + apply pageView_visible; [done|done| |done|].
      * rewrite Hpages. split; [lia|].
        assert (i / limit < ceilDiv (length (universe t)) limit); [nia|lia].
      * apply elem_of_slice. exists i. split; [done|].
        replace (i / limit + 1 - 1) with (i / limit) by lia. nia.
    + intros k' Hk' Hv. apply pageView_visible in Hv; [|done..].
      apply elem_of_slice in Hv as (j & Hj & Hrange).
      pose proof (NoDup_lookup _ _ _ _ HndU Hi Hj) as <-.
      assert (k' - 1 = i / limit); [nia|lia].
Qed.

Lemma pagination_coverage_witness :
  let t := construct paging [plainHeader] threeRows [] in
  pages (paginate 2 t) = 2 ∧
  visible (pageView 2 t 2) (textRow 2 ["Bob"]) ∧
  ¬ visible (pageView 2 t 1) (textRow 2 ["Bob"]).
Proof.
  intros t.
  assert (1 ≤ 2) as Hl by lia.
  assert (wellFormed t) as Hwf.
  { split; apply (bool_decide_unpack _); vm_compute; exact I. }
  destruct (pagination_coverage 2 t Hl Hwf) as (Hp & _ & Hv & _).
  assert (textRow 2 ["Bob"] ∈ universe t) as Hin.
  { apply (bool_decide_unpack _). vm_compute. exact I. }
  split; [exact Hp|]. split.
  - apply Hv; [rewrite Hp; vm_compute; lia|exact Hin|].
    apply (bool_decide_unpack _). vm_compute. exact I.
  - rewrite Hv; [|rewrite Hp; vm_compute; lia|exact Hin].
    apply (bool_decide_unpack _). vm_compute. exact I.
Defined.

(** ** Sorting: failure and atomicity *)

(** A run of a plan fails exactly with the exception of a comparator call
    it made. *)
Lemma runPlan_thrown (p : SortPlan) (f : Row → Row → Exn + Z) (l : list Row) (e : Exn) :
  runPlan p (SortCompare f l) = inl e →
  ∃ a b, (a, b) ∈ comparisons p f l ∧ f a b = inl e.
Proof.
  induction p as [order|i j next IH]; simpl; [done|].
  unfold SortCompare at 1 3.
  destruct (l !! i) as [a|] eqn:Ha, (l !! j) as [b|] eqn:Hb; simpl.
  - destruct (f a b) as [e'|v] eqn:Hf.
    + intros [= ->]. exists a, b. split; [set_solver|done].
    + intros Hrun. destruct (IH v Hrun) as (a' & b' & Hin & Hthrow).
      exists a', b'. split; [set_solver|done].
  - intros Hrun. destruct (IH _ Hrun) as (a' & b' & Hin & Hthrow). eauto.
  - intros Hrun. destruct (IH _ Hrun) as (a' & b' & Hin & Hthrow). eauto.
  - intros Hrun. destruct (IH _ Hrun) as (a' & b' & Hin & Hthrow). eauto.
Qed.

Lemma runPlan_returned (p : SortPlan) (f : Row → Row → Exn + Z) (l : list Row)
  (order : list nat) :
  runPlan p (SortCompare f l) = inr order →
  ∀ a b, (a, b) ∈ comparisons p f l → ∃ v, f a b = inr v.
Proof.
  induction p as [o|i j next IH]; simpl; [set_solver|].
  unfold SortCompare at 1 3.
  destruct (l !! i) as [a|] eqn:Ha, (l !! j) as [b|] eqn:Hb; simpl.
  - destruct (f a b) as [e'|v] eqn:Hf; [done|].
    intros Hrun a' b' [Hin|Hin]%elem_of_cons.
    + simplify_eq. eauto.
    + by eapply IH.
  - intros Hrun a' b' Hin. by eapply IH.
  - intros Hrun a' b' Hin. by eapply IH.
  - intros Hrun a' b' Hin. by eapply IH.
Qed.

(** Every pair the comparator is called on is a pair of rows of the
    array. *)
Lemma comparisons_elem_of (p : SortPlan) (f : Row → Row → Exn + Z) (l : list Row)
  (a b : Row) :
  (a, b) ∈ comparisons p f l → a ∈ l ∧ b ∈ l.
Proof.
  induction p as [o|i j next IH]; simpl; [set_solver|].
  unfold SortCompare.
  destruct (l !! i) as [x|] eqn:Hx, (l !! j) as [y|] eqn:Hy; simpl; eauto.
  assert (x ∈ l ∧ y ∈ l) as Hxy.
  { split; apply list_elem_of_lookup; eauto. }
  destruct (f x y) as [e|v].
  - intros Hin. apply list_elem_of_singleton in Hin. by simplify_eq.
  - intros [Hin|Hin]%elem_of_cons; [by simplify_eq|eauto].
Qed.

Lemma dateComparator_thrown (asc : bool) (column : nat) (a b : Row) (e : Exn) :
  is_Some (cells a !! column) → is_Some (cells b !! column) →
  dateComparator asc column a b = inl e →
  e = Error formatMessage ∧ (lacksFormat column a ∨ lacksFormat column b).
Proof.
  intros [d1 H1] [d2 H2]. unfold dateComparator, lacksFormat. rewrite H1, H2.
  destruct (dateFormat d1) as [f1|] eqn:E1.
  - destruct (dateFormat d2) as [f2|] eqn:E2; [done|].
    intros [= <-]. split; [done|]. right. eauto.
  - intros [= <-]. split; [done|]. left. eauto.
Qed.

Lemma dateComparator_lacks (asc : bool) (column : nat) (a b : Row) :
  is_Some (cells a !! column) → is_Some (cells b !! column) →
  lacksFormat column a ∨ lacksFormat column b →
  dateComparator asc column a b = inl (Error formatMessage).
Proof.
  intros [d1 H1] [d2 H2]. unfold dateComparator, lacksFormat. rewrite H1, H2.
  intros [(c & Hc & Hn)|(c & Hc & Hn)]; simplify_eq.
  - by rewrite Hn.
  - rewrite Hn. by destruct (dateFormat d1).
Qed.

Section SortingFacts.

Variable engine : nat → SortPlan.
Variable collatorCompare : string → string → Z.

Lemma sortColumn_thrown (column : nat) (t : Table) (e : Exn) (t' : Table) :
  sortColumn engine collatorCompare column t = Thrown e t' → t' = t.
Proof.
  unfold sortColumn, Array_sort.
  destruct (headers t !! column) as [header|]; [|by intros [= _ <-]].
  destruct (runPlan _ _); by intros [= _ <-].
Qed.

Lemma sortColumn_date (column : nat) (header : Header) (t : Table) :
  headers t !! column = Some header → isDateColumn header = true →
  sortColumn engine collatorCompare column t
  = match runPlan (engine (length (rows t)))
            (SortCompare (dateComparator (sortASC t) column) (rows t)) with
    | inl e => Thrown e t
    | inr order =>
        let sorted := omap (fun i => rows t !! i) order in
        Returned (dispatch (Sorted column (getSortingOrder t))
                    (set_body (foldl appendChild (body t) sorted) (set_rows sorted t)))
    end.
Proof.
  intros Hh Hd. unfold sortColumn, Array_sort. rewrite Hh, Hd.
  by destruct (runPlan _ _).
Qed.

Lemma sortOnClick_propagates (index : nat) (clicked : Header) (t : Table)
  (e : Exn) (t' : Table) :
  headers t !! index = Some clicked → sortable clicked = true →
  sortColumn engine collatorCompare index (toggleOrder index t) = Thrown e t' →
  sortOnClick engine collatorCompare (HeaderCell index) t = Thrown e t'.
Proof.
  intros Hh Hs Hthrow. unfold sortOnClick. by rewrite Hh, Hs, Hthrow.
Qed.

End SortingFacts.

(** C6: when sorting a column throws (the missing-format error of a Date
    column among the cases), [sortColumn] leaves the table as it was: the
    order of [this.rows] and of the body's rows is the one before the
    call.  A header click whose sort throws leaves both orders and the
    visibility of the rows untouched as well. *)
Theorem failed_sort_keeps_order (engine : nat → SortPlan)
  (collatorCompare : string → string → Z) (t : Table) (e : Exn) (t' : Table) :
  (∀ column,
     sortColumn engine collatorCompare column t = Thrown e t' →
     t' = t ∧ rows t' = rows t ∧ body t' = body t) ∧
  (∀ target,
     sortOnClick engine collatorCompare target t = Thrown e t' →
     rows t' = rows t ∧ body t' = body t ∧ hidden t' = hidden t).
Proof.
  split.
  - intros column Hthrow. apply sortColumn_thrown in Hthrow as ->. done.
  - intros [index|]; unfold sortOnClick; [|done].
    destruct (headers t !! index) as [clicked|]; [|done].
    destruct (sortable clicked); simpl; [|done].
    destruct (sortColumn _ _ _ _) as [t1|e1 t1] eqn:Hsort.
    + by destruct (optPaginate (options t1)).
    + intros [= -> ->]. apply sortColumn_thrown in Hsort as ->. done.
Qed.

Lemma failed_sort_keeps_order_witness :
  sortColumn insertionEngine byteCompare 0 missingFormat
    = Thrown (Error formatMessage) missingFormat ∧
  rows missingFormat
    = [dateRow 0 "01/02/2020" (Some "MDY"); dateRow 1 "03/04/2019" None].
Proof.
  split; [reflexivity|].
  apply (proj1 (failed_sort_keeps_order insertionEngine byteCompare
                  missingFormat (Error formatMessage) missingFormat) 0).
  reflexivity.
Defined.

(** C7: sorting a Date column whose rows all have a cell in that column
    throws the format error exactly when the comparator is called on a
    pair with a cell that lacks [data-date-format]; otherwise it returns.
    In particular it returns when every cell carries the attribute.  It
    throws nothing else, and the error passes through [sortOnClick] to the
    caller. *)
Theorem sortColumn_date_raises_iff (engine : nat → SortPlan)
  (collatorCompare : string → string → Z) (column : nat) (header : Header)
  (t : Table) :
  headers t !! column = Some header → isDateColumn header = true →
  (∀ r, r ∈ rows t → is_Some (cells r !! column)) →
  (sortColumn engine collatorCompare column t = Thrown (Error formatMessage) t ↔
   ∃ a b, (a, b) ∈ comparedPairs engine column t ∧
          (lacksFormat column a ∨ lacksFormat column b)) ∧
  ((∃ t', sortColumn engine collatorCompare column t = Returned t') ↔
   ¬ ∃ a b, (a, b) ∈ comparedPairs engine column t ∧
            (lacksFormat column a ∨ lacksFormat column b)) ∧
  ((∀ r, r ∈ rows t → hasFormat column r) →
   ∃ t', sortColumn engine collatorCompare column t = Returned t') ∧
  (∀ e t', sortColumn engine collatorCompare column t = Thrown e t' →
           e = Error formatMessage ∧ t' = t) ∧
  (∀ t0 clicked e t',
     headers t0 !! column = Some clicked → sortable clicked = true →
     t = toggleOrder column t0 →
     sortColumn engine collatorCompare column t = Thrown e t' →
     sortOnClick engine collatorCompare (HeaderCell column) t0 = Thrown e t').
Proof.
  intros Hh Hd Hcells.
  pose proof (sortColumn_date engine collatorCompare column header t Hh Hd) as Hsort.
  unfold comparedPairs.
  set (p := engine (length (rows t))) in *.
  set (f := dateComparator (sortASC t) column) in *.
  assert (∀ a b, (a, b) ∈ comparisons p f (rows t) →
            is_Some (cells a !! column) ∧ is_Some (cells b !! column)) as Hpair.
  { intros a b [Ha Hb]%comparisons_elem_of. auto. }
  assert (∀ e, runPlan p (SortCompare f (rows t)) = inl e →
            e = Error formatMessage ∧
            ∃ a b, (a, b) ∈ comparisons p f (rows t) ∧
                   (lacksFormat column a ∨ lacksFormat column b)) as Hfail.
  { intros e (a & b & Hin & Hthrow)%runPlan_thrown.
    destruct (Hpair a b Hin) as [Ha Hb].
    destruct (dateComparator_thrown _ _ _ _ _ Ha Hb Hthrow) as [-> Hl]. eauto. }
  assert (∀ order, runPlan p (SortCompare f (rows t)) = inr order →
            ¬ ∃ a b, (a, b) ∈ comparisons p f (rows t) ∧
                     (lacksFormat column a ∨ lacksFormat column b)) as Hok.
  { intros order Hrun (a & b & Hin & Hl).
    destruct (runPlan_returned _ _ _ _ Hrun a b Hin) as [v Hv].
    destruct (Hpair a b Hin) as [Ha Hb]. unfold f in Hv.
    rewrite (dateComparator_lacks _ _ _ _ Ha Hb Hl) in Hv. done. }
  assert (∀ t0 clicked e t',
     headers t0 !! column = Some clicked → sortable clicked = true →
     t = toggleOrder column t0 →
     sortColumn engine collatorCompare column t = Thrown e t' →
     sortOnClick engine collatorCompare (HeaderCell column) t0 = Thrown e t') as Hclick.
  { intros t0 clicked e t' Hc Hs Ht Hthrow. rewrite Ht in Hthrow.
    by apply (sortOnClick_propagates _ _ _ clicked). }
  split; [|split; [|split; [|split; [|exact Hclick]]]]; clear Hclick;
    rewrite Hsort;
    destruct (runPlan p (SortCompare f (rows t))) as [e0|order] eqn:Hrun.
  - destruct (Hfail e0 eq_refl) as [-> Hex]. done.
  - specialize (Hok order eq_refl). done.
  - destruct (Hfail e0 eq_refl) as [-> Hex]. split; [by intros [? ?]|done].
  - specialize (Hok order eq_refl). split; [done|eauto].
  - destruct (Hfail e0 eq_refl) as [-> (a & b & Hin & Hl)]. intros Hall. exfalso.
    apply comparisons_elem_of in Hin as [Ha Hb].
    destruct Hl as [(c & Hc & Hn)|(c & Hc & Hn)].
    + destruct (Hall a Ha) as (c' & f' & Hc' & Hf'). congruence.
    + destruct (Hall b Hb) as (c' & f' & Hc' & Hf'). congruence.
  - eauto.
  - destruct (Hfail e0 eq_refl) as [-> Hex]. by intros ? ? [= <- <-].
  - done.
Qed.

Lemma sortColumn_date_raises_iff_witness :
  sortColumn insertionEngine byteCompare 0 missingFormat
    = Thrown (Error formatMessage) missingFormat ∧
  ∃ t', sortColumn insertionEngine byteCompare 0 allFormats = Returned t'.
Proof.
  split.
  - apply (sortColumn_date_raises_iff insertionEngine byteCompare 0 dateHeader
             missingFormat); [reflexivity|reflexivity| |].
    + intros r Hr. cbn in Hr.
      apply elem_of_cons in Hr as [->|Hr]; [by eexists|].
      apply elem_of_cons in Hr as [->|Hr]; [by eexists|]. inversion Hr.
    + exists (dateRow 0 "01/02/2020" (Some "MDY")), (dateRow 1 "03/04/2019" None).
      split; [vm_compute; left|right; eexists; split; reflexivity].
  - apply (sortColumn_date_raises_iff insertionEngine byteCompare 0 dateHeader
             allFormats); [reflexivity|reflexivity| |].
    + intros r Hr. cbn in Hr.
      apply elem_of_cons in Hr as [->|Hr]; [by eexists|].
      apply elem_of_cons in Hr as [->|Hr]; [by eexists|]. inversion Hr.
    + intros r Hr. cbn in Hr.
      apply elem_of_cons in Hr as [->|Hr]; [by do 2 eexists|].
      apply elem_of_cons in Hr as [->|Hr]; [by do 2 eexists|]. inversion Hr.
Defined.

(** ** Visibility after [filter] and after a header click *)

Lemma omap_lookup_subseteq (l : list Row) (order : list nat) :
  omap (fun i => l !! i) order ⊆ l.
Proof.
  intros x [i [_ Hi]]%list_elem_of_omap. apply list_elem_of_lookup. eauto.
Qed.

Section ClickFacts.

Variable engine : nat → SortPlan.
Variable collatorCompare : string → string → Z.

Lemma sortColumn_returned (column : nat) (t t' : Table) :
  sortColumn engine collatorCompare column t = Returned t' →
  rows t' ⊆ rows t ∧ filteredRows t' = filteredRows t ∧
  hidden t' = hidden t ∧ options t' = options t ∧
  itemsPerPage t' = itemsPerPage t ∧ currPage t' = currPage t.
Proof.
  unfold sortColumn, Array_sort.
  destruct (headers t !! column) as [header|]; [|done].
  destruct (runPlan _ _) as [e|order]; [done|].
  intros [= <-]. simpl. split; [apply omap_lookup_subseteq|done].
Qed.

Lemma sortOnClick_hidden (index : nat) (clicked : Header) (t t' : Table) :
  headers t !! index = Some clicked → sortable clicked = true →
  optPaginate (options t) = true →
  sortOnClick engine collatorCompare (HeaderCell index) t = Returned t' →
  rows t' ⊆ rows t ∧ filteredRows t' = filteredRows t ∧
  itemsPerPage t' = itemsPerPage t ∧ currPage t' = currPage t ∧
  hidden t' = foldl show (foldl hide (hidden t) (universe t'))
                (slice (itemsPerPage t * (currPage t - 1))
                       (itemsPerPage t * (currPage t - 1) + itemsPerPage t)
                       (universe t')).
Proof.
  intros Hh Hs Hp. unfold sortOnClick. rewrite Hh, Hs. simpl.
  destruct (sortColumn _ _ _ _) as [t1|e t1] eqn:Hsort; [|done].
  apply sortColumn_returned in Hsort as (Hr & Hf & Hhid & Ho & Hi & Hc).
  simpl in Ho, Hp. rewrite Ho, Hp. intros [= <-].
  unfold universe. simpl. rewrite Hhid, Hi, Hc. simpl.
  repeat split; done.
Qed.

End ClickFacts.

Lemma isVisible_visible (t : Table) (r : Row) : isVisible t r = true ↔ visible t r.
Proof. unfold isVisible, visible. apply bool_decide_eq_true. Qed.

(** C1, as the specification has it, fails: with pagination active and
    one row per page, [filter("")] leaves a row visible that is not in the
    page-1 slice of the filtered rows. *)
Lemma filter_shows_beyond_first_page :
  ∃ t', filter EmptyString None (paginate 1 (construct paging [plainHeader] threeRows []))
          = Returned t' ∧
        optPaginate (options t') = true ∧
        currPage t' = 1 ∧ itemsPerPage t' = 1 ∧
        textRow 1 ["alice"] ∈ universe t' ∧
        visible t' (textRow 1 ["alice"]) ∧
        textRow 1 ["alice"] ∉ slice 0 1 (universe t').
Proof.
  eexists. split; [vm_compute; reflexivity|].
  split; [reflexivity|]. split; [reflexivity|]. split; [reflexivity|].
  split; [|split].
  - apply (bool_decide_unpack _). vm_compute. exact I.
  - apply isVisible_visible. vm_compute. reflexivity.
  - apply (bool_decide_unpack _). vm_compute. exact I.
Qed.

(** C1, amended: [filter] shows exactly the matching rows, all of them,
    and leaves the page counters alone; a click on a sortable header, with
    pagination on and no filtered rows stored, shows of the newly ordered
    rows exactly the slice of the current page. *)
Theorem visible_rows_after_filter_and_sort (engine : nat → SortPlan)
  (collatorCompare : string → string → Z) (t : Table) :
  NoDup (rowId <$> rows t) →
  (∀ value column t',
     filter value column t = Returned t' →
     currPage t' = currPage t ∧ pages t' = pages t ∧
     itemsPerPage t' = itemsPerPage t ∧
     ∀ r, r ∈ rows t → visible t' r ↔ r ∈ universe t') ∧
  (∀ index clicked t',
     headers t !! index = Some clicked → sortable clicked = true →
     optPaginate (options t) = true → filteredRows t = None →
     sortOnClick engine collatorCompare (HeaderCell index) t = Returned t' →
     ∀ r, r ∈ rows t' →
       visible t' r ↔
       r ∈ slice (itemsPerPage t' * (currPage t' - 1))
                 (itemsPerPage t' * (currPage t' - 1) + itemsPerPage t')
                 (rows t')).
Proof.
  intros Hnd. split.
  - intros value column t' Hf.
    apply filter_returned in Hf as (matching & Hm & ->).
    split; [done|]. split; [done|]. split; [done|].
    intros r Hr. unfold visible, universe. simpl.
    rewrite elem_of_foldl_show, elem_of_foldl_hide.
    assert (rowId r ∈ rowId <$> matching ↔ r ∈ matching) as Hin.
    { apply (rowId_elem_of (rows t)); [done| |done].
      apply sublist_subseteq. by eapply Array_filter_sublist. }
    rewrite Hin. split.
    + intros Hnot. destruct (decide (r ∈ matching)) as [|Hn]; [done|].
      exfalso. apply Hnot. split; [|done]. right. by apply list_elem_of_fmap_2.
    + intros ? [_ ?]. done.
  - intros index clicked t' Hh Hs Hp Hnone Hclick r Hr.
    destruct (sortOnClick_hidden engine collatorCompare index clicked t t'
                Hh Hs Hp Hclick) as (Hsub & Hf & Hi & Hc & Hhid).
    assert (universe t' = rows t') as Hu.
    { unfold universe. by rewrite Hf, Hnone. }
    unfold visible. rewrite Hhid, Hu, Hi, Hc.
    set (page := slice _ _ (rows t')).
    rewrite elem_of_foldl_show, elem_of_foldl_hide.
    assert (rowId r ∈ rowId <$> page ↔ r ∈ page) as Hin.
    { apply (rowId_elem_of (rows t)); [done| |by apply Hsub].
      etrans; [apply sublist_subseteq, sublist_slice|done]. }
    rewrite Hin. split.
    + intros Hnot. destruct (decide (r ∈ page)) as [|Hn]; [done|].
      exfalso. apply Hnot. split; [|done]. right. by apply list_elem_of_fmap_2.
    + intros ? [_ ?]. done.
Qed.

Lemma visible_rows_after_filter_and_sort_witness :
  sortOnClick insertionEngine byteCompare (HeaderCell 0) twoPerPage = Returned afterClick ∧
  rows afterClick = [textRow 0 ["Charlie"]; textRow 2 ["Bob"]; textRow 1 ["alice"]] ∧
  visible afterClick (textRow 2 ["Bob"]) ∧
  ¬ visible afterClick (textRow 1 ["alice"]).
Proof.
  assert (NoDup (rowId <$> rows twoPerPage)) as Hnd.
  { apply (bool_decide_unpack _). vm_compute. exact I. }
  assert (sortOnClick insertionEngine byteCompare (HeaderCell 0) twoPerPage
          = Returned afterClick) as Hclick.
  { vm_compute. reflexivity. }
  pose proof (proj2 (visible_rows_after_filter_and_sort insertionEngine byteCompare
                       twoPerPage Hnd) 0 plainHeader afterClick
                eq_refl eq_refl eq_refl eq_refl Hclick) as Hshown.
  split; [exact Hclick|]. split; [vm_compute; reflexivity|]. split.
  - apply Hshown; apply (bool_decide_unpack _); vm_compute; exact I.
  - rewrite Hshown; apply (bool_decide_unpack _); vm_compute; exact I.
Defined.

(** ** Row selection *)


Lemma countChecked_setBox (v : bool) (boxes : list RowCheckbox) :
  countChecked (setBox v <$> boxes) = if v then length boxes else 0.
Proof.
  unfold countChecked. induction boxes as [|b boxes IH]; [by destruct v|].
  rewrite fmap_cons. simpl. destruct v; simpl; by rewrite IH.
Qed.

Lemma countChecked_toggle (boxes : list RowCheckbox) (i : nat) (b : RowCheckbox) :
  boxes !! i = Some b →
  Z.of_nat (countChecked (alter toggleBox i boxes))
  = (Z.of_nat (countChecked boxes) + (if boxChecked b then -1 else 1))%Z.
Proof.
  unfold countChecked. revert i. induction boxes as [|x boxes IH]; intros i Hi; [done|].
  destruct i as [|i]; simpl in *.
  - simplify_eq. clear IH.
    destruct (boxChecked b); cbn [negb length]; rewrite Nat2Z.inj_succ; lia.
  - specialize (IH i Hi).
    destruct (boxChecked x); cbn [length]; rewrite ?Nat2Z.inj_succ;
      change (list_alter toggleBox i boxes) with (alter toggleBox i boxes); lia.
Qed.

Lemma alter_absent {A : Type} (f : A → A) (l : list A) (i : nat) :
  l !! i = None → alter f i l = l.
Proof.
  revert i. induction l as [|x l IH]; intros [|i] Hi; try done.
  simpl in *. f_equal. by apply IH.
Qed.






(** ** Date conversion *)

Example split_slash : split "01/02/2020" = ["01"; "02"; "2020"].
Proof. reflexivity. Qed.

Example split_dot : split "24.06.1966" = ["24"; "06"; "1966"].
Proof. reflexivity. Qed.

Example split_dash : split "01-02-2020" = ["01-02-2020"].
Proof. reflexivity. Qed.

Lemma split_noDelimiter (s : string) : noDelimiter s = true → split s = [s].
Proof.
  induction s as [|c s IH]; simpl; [done|].
  intros [Hc Hs]%andb_true_iff. apply negb_true_iff in Hc.
  by rewrite Hc, (IH Hs).
Qed.

(** C2: a date written with [-] between its tokens is not split (the
    class [.-/] is the range from [.] to [/] and does not contain [-]), so
    the tokens at index 1 and 2 are missing and, whatever the format, the
    conversion yields no time value: every comparison with such a date is
    false and the comparator answers 0. *)
Theorem dash_dates_never_convert (date format : string) :
  noDelimiter date = true →
  timeValue (convertStringToDate date format) = None ∧
  ∀ asc other,
    compareDates asc (convertStringToDate date format) other = 0%Z ∧
    compareDates asc other (convertStringToDate date format) = 0%Z.
Proof.
  intros Hnd.
  assert (timeValue (convertStringToDate date format) = None) as Hnone.
  { unfold convertStringToDate. rewrite (split_noDelimiter _ Hnd).
    repeat case_decide; simpl; try done; by destruct (digits 0 date). }
  split; [done|]. intros asc other. unfold compareDates, jsLt. rewrite Hnone.
  destruct asc, (timeValue other); done.
Qed.

Lemma dash_dates_never_convert_witness :
  timeValue (convertStringToDate "01-02-2020" "DMY") = None ∧
  compareDates true (convertStringToDate "01-02-2020" "DMY")
                    (convertStringToDate "01/02/2019" "DMY") = 0%Z.
Proof.
  destruct (dash_dates_never_convert "01-02-2020" "DMY" eq_refl) as [Hnone Hcmp].
  split; [exact Hnone|]. apply Hcmp.
Defined.

(** The month token is handed to [Date] as a month index, which counts
    from 0: 31/01/2020 becomes the 31st day of February 2020, that is
    2 March, and sorts after 01/02/2020, which becomes 1 March. *)
Example month_token_used_as_index :
  convertStringToDate "31/01/2020" "DMY" = Some (DateAt (calendarDay 2020 3 2)) ∧
  convertStringToDate "01/02/2020" "DMY" = Some (DateAt (calendarDay 2020 3 1)) ∧
  compareDates true (convertStringToDate "31/01/2020" "DMY")
                    (convertStringToDate "01/02/2020" "DMY") = 1%Z ∧
  (calendarDay 2020 1 31 < calendarDay 2020 2 1)%Z.
Proof. repeat split. Qed.

(** The scenario of the specification: the two dates differ in the year,
    where the shifted month does no harm. *)
Example dates_by_year :
  compareDates true (convertStringToDate "03/04/2019" "MDY")
                    (convertStringToDate "01/02/2020" "MDY") = (-1)%Z.
Proof. reflexivity. Qed.

(** ** A header click while filtered rows are stored *)

(** [sortOnClick] slices [this.filteredRows], an array of its own that
    the sort of [this.rows] does not reorder: after the rows are sorted
    ascending, page 1 still shows the row that came first when the filter
    ran. *)
Example click_slices_unsorted_filteredRows :
  rows afterTwoClicks
    = [textRow 1 ["alice"]; textRow 2 ["Bob"]; textRow 0 ["Charlie"]] ∧
  filteredRows afterTwoClicks = Some threeRows ∧
  currPage afterTwoClicks = 1 ∧
  isVisible afterTwoClicks (textRow 0 ["Charlie"]) = true ∧
  isVisible afterTwoClicks (textRow 1 ["alice"]) = false.
Proof. vm_compute. repeat split. Qed.

(** * Further properties *)

(** ** [filter]: repetition and failure *)

(** Reduces the field updates and projections of an explicit table. *)
Ltac table_cbv :=
  cbv [showAll hideAll dispatch set_headers set_body set_hidden set_selectedClass
       set_checkboxHeader set_checkboxes set_paginationStats set_paginationPrev
       set_paginationNext set_storedItemsPerPage set_effects set_rows
       set_filteredRows set_currPage set_itemsPerPage set_pages set_sortASC
       set_selectedRows options headers body hidden selectedClass checkboxHeader
       checkboxes paginationStats paginationPrev paginationNext
       storedItemsPerPage effects rows filteredRows currPage itemsPerPage pages
       sortASC selectedRows].

(** X1: filtering again with the same value and column changes nothing:
    the second call returns the state the first one left. *)
Theorem filter_idempotent (value : string) (column : option nat) (t t' : Table) :
  filter value column t = Returned t' →
  filter value column t' = Returned t'.
Proof.
  intros Hf. apply filter_returned in Hf as (matching & Hm & ->).
  destruct t as [o hs b h sc ch cbs st pp pn sto ef rs fr cp ipp pg asc sel].
  cbn [rows] in Hm. unfold filter. table_cbv.
  rewrite Hm. f_equal. f_equal. apply set_eq. intros x.
  rewrite !elem_of_foldl_show, !elem_of_foldl_hide, !elem_of_foldl_show, !elem_of_foldl_hide.
  tauto.
Qed.

Lemma filter_idempotent_witness :
  filter "b" None
    (stateOf (filter "b" None (construct noPaging [plainHeader] threeRows [])))
  = Returned
      (stateOf (filter "b" None (construct noPaging [plainHeader] threeRows []))).
Proof.
  apply (filter_idempotent "b" None (construct noPaging [plainHeader] threeRows [])
           (stateOf (filter "b" None (construct noPaging [plainHeader] threeRows [])))).
  vm_compute. reflexivity.
Defined.

Lemma Array_filter_thrown (value : string) (column : option nat) (l : list Row) (e : Exn) :
  Array_filter (filterCallback value column) l = inl e →
  e = TypeError ∧
  ∃ k r, column = Some (S k) ∧ r ∈ l ∧ cells r !! S k = None.
Proof.
  induction l as [|x l IH]; simpl; [done|].
  destruct (filterCallback value column x) as [e'|keep] eqn:Hx.
  - intros [= ->]. unfold filterCallback in Hx.
    destruct column as [[|k]|]; simpl in Hx; [done| |done].
    destruct (cells x !! S k) eqn:Hc; [done|]. simplify_eq.
    split; [done|]. exists k, x. split; [done|]. split; [set_solver|done].
  - destruct (Array_filter _ l) as [e'|kept]; [|done].
    intros [= ->]. destruct (IH eq_refl) as (-> & k & r & Hc & Hr & Hn).
    split; [done|]. exists k, r. split; [done|]. split; [set_solver|done].
Qed.

Lemma Array_filter_missing_cell (value : string) (k : nat) (l : list Row) (r : Row) :
  r ∈ l → cells r !! S k = None →
  Array_filter (filterCallback value (Some (S k))) l = inl TypeError.
Proof.
  intros Hr Hn. induction l as [|x l IH]; [inversion Hr|].
  simpl. destruct (filterCallback value (Some (S k)) x) as [e|keep] eqn:Hx.
  - unfold filterCallback in Hx. simpl in Hx.
    destruct (cells x !! S k); by simplify_eq.
  - apply elem_of_cons in Hr as [->|Hr].
    + unfold filterCallback in Hx. simpl in Hx. by rewrite Hn in Hx.
    + by rewrite (IH Hr).
Qed.

(** X2: [filter] throws exactly when it is given a column index from 1 on
    and some row has no cell at that index; what it throws is a TypeError,
    and the table is left as it was.  Without a column, and with column 0,
    it always returns. *)
Theorem filter_throws_iff (value : string) (column : option nat) (t : Table) :
  (filter value column t = Thrown TypeError t ↔
   ∃ k r, column = Some (S k) ∧ r ∈ rows t ∧ cells r !! S k = None) ∧
  (∀ e t', filter value column t = Thrown e t' → e = TypeError ∧ t' = t) ∧
  (truthy column = false → ∃ t', filter value column t = Returned t').
Proof.
  unfold filter. split; [split|split].
  - destruct (Array_filter _ _) as [e|m] eqn:Hm; [|done].
    intros _. by apply Array_filter_thrown in Hm as [_ ?].
  - intros (k & r & -> & Hr & Hn).
    by rewrite (Array_filter_missing_cell value k (rows t) r Hr Hn).
  - intros e t'. destruct (Array_filter _ _) as [e'|m] eqn:Hm; [|done].
    intros [= -> ->]. by apply Array_filter_thrown in Hm as [-> _].
  - intros Htr. destruct (Array_filter _ _) as [e|m] eqn:Hm; [|eauto].
    apply Array_filter_thrown in Hm as (_ & k & r & -> & _). done.
Qed.

Lemma filter_throws_iff_witness :
  filter "a" (Some 3) (construct noPaging [plainHeader] threeRows [])
    = Thrown TypeError (construct noPaging [plainHeader] threeRows []) ∧
  ∃ t', filter "a" (Some 0) (construct noPaging [plainHeader] threeRows [])
          = Returned t'.
Proof.
  split.
  - apply (proj1 (filter_throws_iff "a" (Some 3)
                    (construct noPaging [plainHeader] threeRows []))).
    exists 2, (textRow 0 ["Charlie"]). split; [reflexivity|].
    split; [apply (bool_decide_unpack _); vm_compute; exact I|reflexivity].
  - apply (proj2 (proj2 (filter_throws_iff "a" (Some 0)
                           (construct noPaging [plainHeader] threeRows [])))).
    reflexivity.
Defined.

(** ** Moving between pages *)

Lemma paginate_controls (limit : nat) (t : Table) :
  controlDisabled (paginationPrev (paginate limit t)) = true ∧
  controlDisabled (paginationNext (paginate limit t))
    = negb (1 <? ceilDiv (length (universe t)) limit) ∧
  paginationStats (paginate limit t)
    = (if 1 <? ceilDiv (length (universe t)) limit
       then statsText (limit * 0 + 1) (limit * 0 + limit) (length (universe t))
       else statsText 1 (length (universe t)) (length (universe t))).
Proof. unfold paginate. fields. Qed.

Lemma nextPage_controls (t : Table) :
  currPage t ≠ pages t →
  controlDisabled (paginationPrev (nextPage t)) = false ∧
  controlDisabled (paginationNext (nextPage t))
    = (if currPage t + 1 =? pages t then true
       else controlDisabled (paginationNext t)) ∧
  paginationStats (nextPage t)
    = statsText (itemsPerPage t * currPage t + 1)
        (if currPage t + 1 =? pages t then length (universe t)
         else itemsPerPage t * currPage t + itemsPerPage t)
        (length (universe t)).
Proof.
  intros Hne. unfold nextPage.
  destruct (currPage t =? pages t) eqn:E; [by apply Nat.eqb_eq in E|].
  clear E Hne. fields; rewrite ?Nat.add_sub; done.
Qed.

Lemma prevPage_fields (t : Table) :
  2 ≤ currPage t →
  rows (prevPage t) = rows t ∧ filteredRows (prevPage t) = filteredRows t ∧
  itemsPerPage (prevPage t) = itemsPerPage t ∧ pages (prevPage t) = pages t ∧
  currPage (prevPage t) = currPage t - 1 ∧
  hidden (prevPage t)
    = foldl show (foldl hide (hidden t) (rows t))
        (slice (itemsPerPage t * (currPage t - 1 - 1))
               (itemsPerPage t * (currPage t - 1 - 1) + itemsPerPage t) (universe t)) ∧
  controlDisabled (paginationPrev (prevPage t))
    = (if currPage t - 1 =? 1 then true else controlDisabled (paginationPrev t)) ∧
  controlDisabled (paginationNext (prevPage t)) = false ∧
  paginationStats (prevPage t)
    = statsText (itemsPerPage t * (currPage t - 1 - 1) + 1)
        (itemsPerPage t * (currPage t - 1 - 1) + itemsPerPage t)
        (length (universe t)).
Proof.
  intros Hge. unfold prevPage.
  destruct (currPage t <? 2) eqn:E; [apply Nat.ltb_lt in E; lia|].
  clear E Hge. fields.
Qed.

Lemma prevPage_on_first (t : Table) : currPage t = 1 → prevPage t = t.
Proof. intros H. unfold prevPage. by rewrite H. Qed.

Lemma nextPage_on_last (t : Table) : currPage t = pages t → nextPage t = t.
Proof. intros H. unfold nextPage. by rewrite H, Nat.eqb_refl. Qed.

Lemma ceilDiv_positive (total limit : nat) :
  1 ≤ limit → 1 ≤ total →
  1 ≤ ceilDiv total limit ∧ limit * (ceilDiv total limit - 1) < total.
Proof.
  intros Hl Ht. destruct (ceilDiv_ceiling total limit Hl) as [Hup Hleast].
  split; [nia|].
  destruct (decide (limit * (ceilDiv total limit - 1) < total)) as [|Hn]; [done|].
  specialize (Hleast (ceilDiv total limit - 1)). nia.
Qed.

Lemma statsText_eq (a b a' b' c : nat) :
  a = a' → b = b' → statsText a b c = statsText a' b' c.
Proof. by intros -> ->. Qed.

Lemma paged_paginate (limit : nat) (t : Table) :
  1 ≤ limit → universe t ≠ [] → paged limit t (paginate limit t).
Proof.
  intros Hl Hne.
  assert (1 ≤ length (universe t)) as Hlen.
  { destruct (universe t); [done|simpl; lia]. }
  destruct (paginate_fields limit t) as (Hr & Hf & Hi & Hc & Hp).
  destruct (paginate_controls limit t) as (Hprev & Hnext & Hstats).
  destruct (ceilDiv_ceiling (length (universe t)) limit Hl) as [Hup Hleast].
  destruct (ceilDiv_positive _ _ Hl Hlen) as [Hpos _].
  unfold paged. rewrite Hr, Hf, Hi, Hc, Hp, Hprev, Hnext, Hstats.
  repeat split; try done.
  - destruct (1 <? ceilDiv (length (universe t)) limit) eqn:E.
    + apply Nat.ltb_lt in E. symmetry. apply Nat.eqb_neq. lia.
    + apply Nat.ltb_ge in E. symmetry. apply Nat.eqb_eq. lia.
  - unfold pageStats.
    destruct (1 <? ceilDiv (length (universe t)) limit) eqn:E.
    + apply Nat.ltb_lt in E. apply statsText_eq; [lia|].
      assert (limit < length (universe t)); [|lia].
      destruct (decide (limit < length (universe t))) as [|Hn]; [done|].
      specialize (Hleast 1). lia.
    + apply Nat.ltb_ge in E. apply statsText_eq; [lia|nia].
Qed.

Lemma paged_click (limit : nat) (t s : Table) (c : PageClick) :
  1 ≤ limit → universe t ≠ [] → paged limit t s → paged limit t (clickPage s c).
Proof.
  intros Hl Hne (Hr & Hf & Hi & Hp & [Hc1 Hc2] & Hprev & Hnext & Hstats).
  assert (1 ≤ length (universe t)) as Hlen.
  { destruct (universe t); [done|simpl; lia]. }
  pose proof (universe_same s t Hr Hf) as Hu.
  destruct (ceilDiv_ceiling (length (universe t)) limit Hl) as [Hup Hleast].
  destruct (ceilDiv_positive _ _ Hl Hlen) as [Hpos Hlow].
  rewrite <- Hp in Hup, Hlow.
  destruct c; simpl.
  - destruct (decide (currPage s = 1)) as [H1|H1].
    { rewrite (prevPage_on_first s H1). by unfold paged. }
    destruct (prevPage_fields s) as (Hr' & Hf' & Hi' & Hp' & Hc' & _ & Hprev' & Hnext' & Hstats');
      [lia|].
    unfold paged. rewrite Hr', Hf', Hi', Hp', Hc', Hprev', Hnext', Hstats', Hr, Hf, Hi, Hu.
    repeat split; try done; try lia.
    + destruct (currPage s - 1 =? 1); [done|]. rewrite Hprev. apply Nat.eqb_neq. lia.
    + symmetry. apply Nat.eqb_neq. lia.
    + unfold pageStats. apply statsText_eq; [lia|nia].
  - destruct (decide (currPage s = pages s)) as [H1|H1].
    { rewrite (nextPage_on_last s H1). by unfold paged. }
    destruct (nextPage_fields s H1) as (Hr' & Hf' & Hi' & Hp' & Hc' & _).
    destruct (nextPage_controls s H1) as (Hprev' & Hnext' & Hstats').
    unfold paged. rewrite Hr', Hf', Hi', Hp', Hc', Hprev', Hnext', Hstats', Hr, Hf, Hi, Hu.
    repeat split; try done; try lia.
    + symmetry. apply Nat.eqb_neq. lia.
    + destruct (currPage s + 1 =? pages s) eqn:E; [done|].
      rewrite Hnext. by apply Nat.eqb_neq.
    + unfold pageStats.
      destruct (currPage s + 1 =? pages s) eqn:E.
      * apply Nat.eqb_eq in E. apply statsText_eq; [rewrite Nat.add_sub; lia|nia].
      * apply Nat.eqb_neq in E. apply statsText_eq; [rewrite Nat.add_sub; lia|nia].
Qed.

Lemma paged_navigate (limit : nat) (t : Table) (clicks : list PageClick) :
  1 ≤ limit → universe t ≠ [] → paged limit t (navigate limit t clicks).
Proof.
  intros Hl Hne. unfold navigate.
  assert (paged limit t (paginate limit t)) as Hstart by by apply paged_paginate.
  revert Hstart. generalize (paginate limit t).
  induction clicks as [|c clicks IH]; intros s Hs; simpl; [done|].
  apply IH. by apply paged_click.
Qed.

Lemma shown_slice (t : Table) (h : gset nat) (from to : nat) (r : Row) :
  wellFormed t → r ∈ universe t →
  rowId r ∉ foldl show (foldl hide h (rows t)) (slice from to (universe t)) ↔
  r ∈ slice from to (universe t).
Proof.
  intros [Hnd Hsub] Hr.
  set (page := slice from to (universe t)).
  assert (rowId r ∈ rowId <$> page ↔ r ∈ page) as Hpage.
  { apply (rowId_elem_of (universe t)); [done| |done].
    apply sublist_subseteq, sublist_slice. }
  rewrite elem_of_foldl_show, elem_of_foldl_hide, Hpage. split.
  - intros Hnot. destruct (decide (r ∈ page)) as [|Hn]; [done|].
    exfalso. apply Hnot. split; [|done]. right.
    apply list_elem_of_fmap_2. by apply Hsub.
  - intros Hin [_ Hn]. done.
Qed.

Lemma showsCurrentPage_click (limit : nat) (t s : Table) (c : PageClick) :
  wellFormed t → paged limit t s → showsCurrentPage limit t s →
  showsCurrentPage limit t (clickPage s c).
Proof.
  intros Hwf (Hr & Hf & Hi & Hp & [Hc1 Hc2] & _) Hshown.
  pose proof (universe_same s t Hr Hf) as Hu.
  destruct c; simpl.
  - destruct (decide (currPage s = 1)) as [H1|H1].
    { by rewrite (prevPage_on_first s H1). }
    destruct (prevPage_fields s) as (_ & _ & _ & _ & Hc' & Hh & _); [lia|].
    intros r Hin. unfold visible. rewrite Hh, Hc', Hi, Hu, Hr.
    by apply shown_slice.
  - destruct (decide (currPage s = pages s)) as [H1|H1].
    { by rewrite (nextPage_on_last s H1). }
    destruct (nextPage_fields s H1) as (_ & _ & _ & _ & Hc' & Hh).
    intros r Hin. unfold visible. rewrite Hh, Hc', Hi, Hu, Hr, Nat.add_sub.
    by apply shown_slice.
Qed.

Lemma showsCurrentPage_navigate (limit : nat) (t : Table) (clicks : list PageClick) :
  1 ≤ limit → wellFormed t → universe t ≠ [] →
  showsCurrentPage limit t (navigate limit t clicks).
Proof.
  intros Hl Hwf Hne. unfold navigate.
  assert (paged limit t (paginate limit t)) as Hpaged by by apply paged_paginate.
  assert (showsCurrentPage limit t (paginate limit t)) as Hstart.
  { intros r Hr. destruct (paginate_fields limit t) as (_ & _ & _ & Hc & Hp).
    rewrite Hc. apply (pageView_visible limit t 1 r Hl Hwf); [|done].
    destruct (ceilDiv_positive (length (universe t)) limit Hl) as [Hpos _]; [|lia].
    destruct (universe t); [done|simpl; lia]. }
  revert Hpaged Hstart. generalize (paginate limit t).
  induction clicks as [|c clicks IH]; intros s Hs Hshown; simpl; [done|].
  apply IH; [by apply paged_click|by apply showsCurrentPage_click].
Qed.


(** X3: after [paginate] with a page size of at least 1 on a universe
    that is not empty, any sequence of clicks on the previous and next
    controls keeps the page number within 1 and the number of pages, keeps
    the previous control disabled exactly on page 1 and the next control
    exactly on the last page, and leaves the stats text of the page
    shown. *)
Theorem navigation_keeps_pagination (limit : nat) (t : Table)
  (clicks : list PageClick) :
  1 ≤ limit → universe t ≠ [] →
  paged limit t (navigate limit t clicks).
Proof.
  intros Hl Hne. unfold navigate.
  pose proof (paged_paginate limit t Hl Hne) as Hstart.
  revert Hstart. generalize (paginate limit t).
  induction clicks as [|c clicks IH]; intros s Hs.
  - exact Hs.
  - cbn [foldl]. apply IH. by apply paged_click.
Qed.

Lemma navigation_keeps_pagination_witness :
  paged 2 (construct paging [plainHeader] threeRows [])
    (navigate 2 (construct paging [plainHeader] threeRows []) sampleClicks).
Proof.
  apply navigation_keeps_pagination; [lia|]. vm_compute. discriminate.
Defined.

(** X4: after [paginate] with a page size of at least 1 and any sequence
    of clicks on the previous and next controls, the rows of the universe
    that are visible are exactly the slice
    [limit * (currPage - 1), limit * currPage) of the universe. *)
Theorem navigation_shows_current_page (limit : nat) (t : Table)
  (clicks : list PageClick) (r : Row) :
  1 ≤ limit → wellFormed t → r ∈ universe t →
  visible (navigate limit t clicks) r ↔
  r ∈ slice (limit * (currPage (navigate limit t clicks) - 1))
            (limit * currPage (navigate limit t clicks))
            (universe t).
Proof.
  intros Hl Hwf Hr.
  assert (universe t ≠ []) as Hne by (intros E; rewrite E in Hr; inversion Hr).
  pose proof (paged_navigate limit t clicks Hl Hne) as (_ & _ & _ & _ & [Hc1 _] & _).
  replace (limit * currPage (navigate limit t clicks))
    with (limit * (currPage (navigate limit t clicks) - 1) + limit) by nia.
  by apply showsCurrentPage_navigate.
Qed.

Lemma navigation_shows_current_page_witness :
  currPage (navigate 2 (construct paging [plainHeader] threeRows []) sampleClicks) = 2 ∧
  visible (navigate 2 (construct paging [plainHeader] threeRows []) sampleClicks)
    (textRow 2 ["Bob"]).
Proof.
  split; [vm_compute; reflexivity|].
  apply navigation_shows_current_page.
  - lia.
  - split; apply (bool_decide_unpack _); vm_compute; exact I.
  - apply (bool_decide_unpack _). vm_compute. exact I.
  - apply (bool_decide_unpack _). vm_compute. exact I.
Defined.

(** ** What the [paginated] event carries *)


Lemma paginate_effects (limit : nat) (t : Table) :
  effects (paginate limit t) = effects t ++ [Paginated 1 (universe t)].
Proof. unfold paginate. fields. Qed.

Lemma nextPage_effects (t : Table) :
  currPage t ≠ pages t →
  effects (nextPage t)
  = (effects t ++ scrollEffect t) ++
    [Paginated (currPage t + 1)
       (slice (itemsPerPage t * currPage t)
              (itemsPerPage t * currPage t + itemsPerPage t) (universe t))].
Proof.
  intros Hne. unfold nextPage, scrollEffect.
  destruct (currPage t =? pages t) eqn:E; [by apply Nat.eqb_eq in E|].
  clear E Hne. fields; rewrite ?Nat.add_sub, ?app_nil_r; done.
Qed.

Lemma prevPage_effects (t : Table) :
  2 ≤ currPage t →
  effects (prevPage t)
  = (effects t ++ scrollEffect t) ++
    [Paginated (currPage t - 1)
       (slice (itemsPerPage t * (currPage t - 1 - 1))
              (itemsPerPage t * (currPage t - 1 - 1) + itemsPerPage t) (universe t))].
Proof.
  intros Hge. unfold prevPage, scrollEffect.
  destruct (currPage t <? 2) eqn:E; [apply Nat.ltb_lt in E; lia|].
  clear E Hge. fields; rewrite ?app_nil_r; done.
Qed.

(** X5: the event [paginate] dispatches lists every row of the universe,
    whatever the page size, while the events of [nextPage] and [prevPage]
    list the rows of the page they show. *)
Theorem paginated_event_items (limit : nat) (t : Table) :
  last (effects (paginate limit t)) = Some (Paginated 1 (universe t)) ∧
  (currPage t ≠ pages t →
   last (effects (nextPage t))
   = Some (Paginated (currPage t + 1)
             (slice (itemsPerPage t * currPage t)
                    (itemsPerPage t * (currPage t + 1)) (universe t)))) ∧
  (2 ≤ currPage t →
   last (effects (prevPage t))
   = Some (Paginated (currPage t - 1)
             (slice (itemsPerPage t * (currPage t - 2))
                    (itemsPerPage t * (currPage t - 1)) (universe t)))).
Proof.
  split; [|split].
  - by rewrite paginate_effects, last_snoc.
  - intros Hne. rewrite (nextPage_effects t Hne), last_snoc.
    do 3 f_equal. lia.
  - intros Hge. rewrite (prevPage_effects t Hge), last_snoc.
    do 2 f_equal. f_equal; [f_equal; lia|nia].
Qed.

Lemma paginated_event_items_witness :
  let t := paginate 1 (construct paging [plainHeader] threeRows []) in
  last (effects t) = Some (Paginated 1 threeRows) ∧
  last (effects (nextPage t)) = Some (Paginated 2 [textRow 1 ["alice"]]).
Proof.
  intros t. split.
  - apply (proj1 (paginated_event_items 1 (construct paging [plainHeader] threeRows []))).
  - apply (proj1 (proj2 (paginated_event_items 1 t))). vm_compute. lia.
Defined.

(** ** An empty universe *)

Lemma slice_nil (from to : nat) : slice from to [] = [].
Proof. unfold slice. by rewrite drop_nil, take_nil. Qed.

Lemma ceilDiv_zero (limit : nat) : ceilDiv 0 limit = 0.
Proof.
  unfold ceilDiv. destruct limit as [|limit]; [done|].
  by rewrite Nat.Div0.div_0_l, Nat.Div0.mod_0_l.
Qed.

Lemma nextPage_empty (t : Table) :
  universe t = [] → pages t = 0 → 1 ≤ currPage t →
  universe (nextPage t) = [] ∧ pages (nextPage t) = 0 ∧
  currPage (nextPage t) = currPage t + 1 ∧
  last (effects (nextPage t)) = Some (Paginated (currPage t + 1) []).
Proof.
  intros Hu Hp Hc.
  assert (currPage t ≠ pages t) as Hne by lia.
  destruct (nextPage_fields t Hne) as (Hr & Hf & _ & Hp' & Hc' & _).
  rewrite (universe_same _ _ Hr Hf), Hp', Hc', (nextPage_effects t Hne), last_snoc, Hu, slice_nil.
  done.
Qed.

(** X6: when the universe is empty (no row, or a filter that matches
    none), [paginate] counts 0 pages and leaves the page number at 1, so
    the test [currPage === pages] of [nextPage] never holds: every call of
    [nextPage] raises the page number by one and dispatches an event with
    no rows. *)
Theorem next_page_on_empty_universe (limit : nat) (t : Table) (k : nat) :
  1 ≤ limit → universe t = [] →
  pages (Nat.iter k nextPage (paginate limit t)) = 0 ∧
  currPage (Nat.iter k nextPage (paginate limit t)) = 1 + k ∧
  last (effects (Nat.iter k nextPage (paginate limit t)))
    = Some (Paginated (1 + k) []).
Proof.
  intros Hl Hu.
  assert (universe (Nat.iter k nextPage (paginate limit t)) = [] ∧
          pages (Nat.iter k nextPage (paginate limit t)) = 0 ∧
          currPage (Nat.iter k nextPage (paginate limit t)) = 1 + k ∧
          last (effects (Nat.iter k nextPage (paginate limit t)))
            = Some (Paginated (1 + k) [])) as (_ & ? & ? & ?); [|done].
  induction k as [|k (IHu & IHp & IHc & _)].
  - change (Nat.iter 0 nextPage (paginate limit t)) with (paginate limit t).
    destruct (paginate_fields limit t) as (Hr & Hf & _ & Hc & Hp).
    rewrite (universe_same _ _ Hr Hf), Hp, Hc, paginate_effects, last_snoc, Hu.
    by rewrite ceilDiv_zero.
  - rewrite Nat.iter_succ.
    destruct (nextPage_empty _ IHu IHp) as (Hu' & Hp' & Hc' & He'); [lia|].
    rewrite Hu', Hp', Hc', He', IHc. repeat split; try done; try lia.
    do 2 f_equal. lia.
Qed.

Lemma next_page_on_empty_universe_witness :
  universe nothingMatches = [] ∧
  currPage (Nat.iter 3 nextPage (paginate 1 nothingMatches)) = 4 ∧
  pages (Nat.iter 3 nextPage (paginate 1 nothingMatches)) = 0.
Proof.
  assert (universe nothingMatches = []) as Hu by (vm_compute; reflexivity).
  destruct (next_page_on_empty_universe 1 nothingMatches 3 ltac:(lia) Hu)
    as (Hp & Hc & _).
  split; [exact Hu|]. split; [exact Hc|exact Hp].
Defined.

(** ** [filter], then [paginate] *)

Lemma slice_first_page (limit : nat) (l : list Row) :
  slice (limit * (1 - 1)) (limit * (1 - 1) + limit) l = take limit l.
Proof.
  unfold slice. replace (limit * (1 - 1) + limit - limit * (1 - 1)) with limit by lia.
  by replace (limit * (1 - 1)) with 0 by lia.
Qed.

(** X7: filtering and then paginating shows page 1 of the matches: of all
    rows of the table, the visible ones are exactly the first [limit]
    matching rows. *)
Theorem filter_then_paginate (value : string) (column : option nat) (limit : nat)
  (t t1 : Table) (r : Row) :
  NoDup (rowId <$> rows t) → 1 ≤ limit →
  filter value column t = Returned t1 → r ∈ rows t →
  visible (paginate limit t1) r ↔ r ∈ take limit (universe t1).
Proof.
  intros Hnd Hl Hf Hr.
  apply filter_returned in Hf as (matching & Hm & ->).
  set (t1 := showAll matching (hideAll (rows t) (set_filteredRows (Some matching) t))).
  assert (universe t1 = matching) as Hu by done.
  assert (rows t1 = rows t) as Hrows by done.
  pose proof (Array_filter_sublist _ _ _ Hm) as Hsub.
  assert (wellFormed t1) as Hwf.
  { split; rewrite Hu.
    - eapply sublist_NoDup; [done|]. by apply fmap_sublist.
    - rewrite Hrows. by apply sublist_subseteq. }
  rewrite Hu. destruct (decide (r ∈ matching)) as [Hin|Hout].
  - rewrite <- slice_first_page, <- Hu.
    apply (pageView_visible limit t1 1 r Hl Hwf); [|by rewrite Hu].
    destruct (paginate_fields limit t1) as (_ & _ & _ & _ & ->).
    destruct (ceilDiv_positive (length (universe t1)) limit Hl) as [Hpos _]; [|lia].
    rewrite Hu. destruct matching; [inversion Hin|simpl; lia].
  - split; [|intros Hin; exfalso; apply Hout; by eapply (sublist_subseteq _ _ (sublist_take _ _))].
    intros Hvis. exfalso. apply Hvis.
    assert (rowId r ∉ rowId <$> matching) as Hid.
    { rewrite (rowId_elem_of (rows t) matching r Hnd); [done| |done].
      by apply sublist_subseteq. }
    assert (rowId r ∈ hidden t1) as Hhid.
    { unfold t1, showAll, hideAll. simpl.
      rewrite elem_of_foldl_show, elem_of_foldl_hide. split; [|done].
      right. by apply list_elem_of_fmap_2. }
    rewrite paginate_hidden, Hu.
    destruct (1 <? ceilDiv (length matching) limit).
    + rewrite elem_of_foldl_hide, elem_of_foldl_show. by left.
    + rewrite !elem_of_foldl_show. done.
Qed.


Lemma filter_then_paginate_witness :
  ¬ visible
      (paginate 1 (stateOf (filter "b" None (construct paging [plainHeader] threeRows []))))
      (textRow 0 ["Charlie"]) ∧
  visible
      (paginate 1 (stateOf (filter "b" None (construct paging [plainHeader] threeRows []))))
      (textRow 2 ["Bob"]).
Proof.
  assert (NoDup (rowId <$> rows (construct paging [plainHeader] threeRows []))) as Hnd.
  { apply (bool_decide_unpack _). vm_compute. exact I. }
  assert (filter "b" None (construct paging [plainHeader] threeRows [])
          = Returned (stateOf (filter "b" None (construct paging [plainHeader] threeRows []))))
    as Hf by (vm_compute; reflexivity).
  split.
  - rewrite (filter_then_paginate "b" None 1 _ _ (textRow 0 ["Charlie"]) Hnd
               ltac:(lia) Hf); apply (bool_decide_unpack _); vm_compute; exact I.
  - apply (filter_then_paginate "b" None 1 _ _ (textRow 2 ["Bob"]) Hnd
             ltac:(lia) Hf); apply (bool_decide_unpack _); vm_compute; exact I.
Defined.

(** ** Header clicks and sorting *)

Lemma runPlan_total (p : SortPlan) (f : Row → Row → Exn + Z) (l : list Row) :
  (∀ a b, a ∈ l → b ∈ l → ∃ v, f a b = inr v) →
  ∃ order, runPlan p (SortCompare f l) = inr order.
Proof.
  intros Hf. induction p as [order|i j next IH]; simpl; [eauto|].
  unfold SortCompare at 1.
  destruct (l !! i) as [a|] eqn:Ha, (l !! j) as [b|] eqn:Hb; simpl; eauto.
  destruct (Hf a b) as [v Hv].
  - apply list_elem_of_lookup; eauto.
  - apply list_elem_of_lookup; eauto.
  - rewrite Hv. eauto.
Qed.

Lemma markHeader_fields (asc : bool) (h : Header) :
  columnType (markHeader asc h) = columnType h ∧
  sortable (markHeader asc h) = sortable h ∧
  headerActive (markHeader asc (clearHeader h)) = true ∧
  headerSortASC (markHeader asc (clearHeader h)) = asc ∧
  headerSortDESC (markHeader asc (clearHeader h)) = negb asc ∧
  ariaSort (markHeader asc (clearHeader h))
    = Some (if asc then "ascending" else "descending").
Proof. by destruct asc. Qed.

Section ClickDecoration.

Variable engine : nat → SortPlan.
Variable collatorCompare : string → string → Z.

Lemma sortColumn_keeps_headers (column : nat) (t : Table) :
  headers (stateOf (sortColumn engine collatorCompare column t)) = headers t ∧
  sortASC (stateOf (sortColumn engine collatorCompare column t)) = sortASC t.
Proof.
  unfold sortColumn, Array_sort.
  destruct (headers t !! column) as [header|]; [|done].
  by destruct (runPlan _ _).
Qed.

Lemma sortOnClick_headers (index : nat) (clicked : Header) (t : Table) :
  headers t !! index = Some clicked → sortable clicked = true →
  headers (stateOf (sortOnClick engine collatorCompare (HeaderCell index) t))
    = alter (markHeader (negb (sortASC t))) index (clearHeader <$> headers t) ∧
  sortASC (stateOf (sortOnClick engine collatorCompare (HeaderCell index) t))
    = negb (sortASC t).
Proof.
  intros Hh Hs. unfold sortOnClick. rewrite Hh, Hs. simpl.
  destruct (sortColumn_keeps_headers index (toggleOrder index t)) as [Hhd Hasc].
  destruct (sortColumn _ _ _ _) as [t1|e t1]; simpl in *.
  - destruct (optPaginate (options t1)); simpl; rewrite Hhd, Hasc; simpl;
      by destruct (sortASC t).
  - rewrite Hhd, Hasc. simpl. by destruct (sortASC t).
Qed.

Lemma sortColumn_text (column : nat) (header : Header) (t : Table) :
  headers t !! column = Some header → isDateColumn header = false →
  (∀ r, r ∈ rows t → is_Some (cells r !! column)) →
  ∃ t', sortColumn engine collatorCompare column t = Returned t' ∧
        effects t' = effects t ++ [Sorted column (getSortingOrder t)] ∧
        hidden t' = hidden t ∧ sortASC t' = sortASC t ∧
        rows t' ⊆ rows t.
Proof.
  intros Hh Hd Hcells. unfold sortColumn, Array_sort. rewrite Hh, Hd.
  destruct (runPlan_total (engine (length (rows t)))
              (textComparator collatorCompare (sortASC t) column) (rows t))
    as [order Horder].
  { intros a b Ha Hb. destruct (Hcells a Ha) as [c1 H1], (Hcells b Hb) as [c2 H2].
    unfold textComparator. rewrite H1, H2. eauto. }
  rewrite Horder. eexists. split; [done|]. simpl.
  repeat split; try done. apply omap_lookup_subseteq.
Qed.

End ClickDecoration.

(** X8: a click on a sortable header flips the sort order and leaves
    exactly the clicked header marked, with the class and the [aria-sort]
    value of the new order and every other header cleared; the column type
    and the sortable class of the headers stay.  This holds when the sort
    returns and also when it throws. *)
Theorem click_marks_one_header (engine : nat → SortPlan)
  (collatorCompare : string → string → Z) (index : nat) (clicked : Header)
  (t : Table) (j : nat) (h : Header) :
  headers t !! index = Some clicked → sortable clicked = true →
  headers (stateOf (sortOnClick engine collatorCompare (HeaderCell index) t)) !! j
    = Some h →
  sortASC (stateOf (sortOnClick engine collatorCompare (HeaderCell index) t))
    = negb (sortASC t) ∧
  (∃ h0, headers t !! j = Some h0 ∧
         columnType h = columnType h0 ∧ sortable h = sortable h0) ∧
  (j = index →
     headerActive h = true ∧
     headerSortASC h = negb (sortASC t) ∧
     headerSortDESC h = sortASC t ∧
     ariaSort h = Some (if sortASC t then "descending" else "ascending")) ∧
  (j ≠ index →
     headerActive h = false ∧ headerSortASC h = false ∧
     headerSortDESC h = false ∧ ariaSort h = None).
Proof.
  intros Hh Hs.
  destruct (sortOnClick_headers engine collatorCompare index clicked t Hh Hs)
    as [-> ->].
  intros Hj. split; [done|].
  destruct (decide (j = index)) as [->|Hne].
  - rewrite list_lookup_alter_eq, list_lookup_fmap, Hh in Hj. simpl in Hj.
    simplify_eq.
    destruct (markHeader_fields (negb (sortASC t)) clicked) as (Hc & Hsb & Ha & H1 & H2 & H3).
    split; [|split; [|done]].
    + exists clicked. by destruct (sortASC t).
    + intros _. rewrite Ha, H1, H2, H3, negb_involutive. by destruct (sortASC t).
  - rewrite list_lookup_alter_ne, list_lookup_fmap in Hj by done.
    destruct (headers t !! j) as [h0|] eqn:Hj0; [|done]. simpl in Hj. simplify_eq.
    split; [by exists h0|]. split; [done|]. done.
Qed.

Lemma click_marks_one_header_witness :
  sortASC (stateOf (sortOnClick insertionEngine byteCompare (HeaderCell 0) missingFormat))
    = false ∧
  ∃ h, headers (stateOf (sortOnClick insertionEngine byteCompare (HeaderCell 0)
                           missingFormat)) !! 0 = Some h ∧
       ariaSort h = Some "descending".
Proof.
  assert (headers (stateOf (sortOnClick insertionEngine byteCompare (HeaderCell 0)
                              missingFormat)) !! 0
          = Some (markHeader false (clearHeader dateHeader))) as Hj
    by (vm_compute; reflexivity).
  destruct (click_marks_one_header insertionEngine byteCompare 0 dateHeader
              missingFormat 0 _ eq_refl eq_refl Hj) as (Hasc & _ & Hmark & _).
  split; [exact Hasc|]. eexists. split; [exact Hj|].
  by destruct (Hmark eq_refl) as (_ & _ & _ & ->).
Defined.

(** X9: sorting a column that has no header throws a TypeError and
    changes nothing; sorting a column that is not of type Date, when every
    row has a cell in it, returns whatever the engine's algorithm and the
    collator are, dispatches one [sorted] event with the current order and
    leaves the visibility of the rows and the order flag alone. *)
Theorem sortColumn_text_column (engine : nat → SortPlan)
  (collatorCompare : string → string → Z) (column : nat) (t : Table) :
  (headers t !! column = None →
   sortColumn engine collatorCompare column t = Thrown TypeError t) ∧
  (∀ header,
     headers t !! column = Some header → isDateColumn header = false →
     (∀ r, r ∈ rows t → is_Some (cells r !! column)) →
     ∃ t', sortColumn engine collatorCompare column t = Returned t' ∧
           effects t' = effects t ++ [Sorted column (getSortingOrder t)] ∧
           hidden t' = hidden t ∧ sortASC t' = sortASC t ∧
           rows t' ⊆ rows t).
Proof.
  split.
  - intros Hh. unfold sortColumn. by rewrite Hh.
  - intros header. apply sortColumn_text.
Qed.

Lemma sortColumn_text_column_witness :
  sortColumn insertionEngine byteCompare 5 (construct noPaging [plainHeader] threeRows [])
    = Thrown TypeError (construct noPaging [plainHeader] threeRows []) ∧
  ∃ t', sortColumn insertionEngine byteCompare 0
          (construct noPaging [plainHeader] threeRows []) = Returned t' ∧
        effects t' = [Sorted 0 "ASC"].
Proof.
  destruct (sortColumn_text_column insertionEngine byteCompare 5
              (construct noPaging [plainHeader] threeRows [])) as [Hout _].
  destruct (sortColumn_text_column insertionEngine byteCompare 0
              (construct noPaging [plainHeader] threeRows [])) as [_ Hin].
  split; [apply Hout; reflexivity|].
  destruct (Hin plainHeader eq_refl eq_refl) as (t' & Ht' & He & _).
  - intros r Hr. cbn in Hr.
    repeat (apply elem_of_cons in Hr as [->|Hr]; [by eexists|]). inversion Hr.
  - exists t'. split; [exact Ht'|exact He].
Defined.

(** ** Document order after a sort *)

Lemma filter_every (f : Row → bool) (l : list Row) :
  (∀ r, r ∈ l → f r = true) → List.filter f l = l.
Proof.
  induction l as [|x l IH]; intros Hf; [done|]. simpl.
  rewrite (Hf x) by set_solver. f_equal. apply IH. intros r Hr. apply Hf. set_solver.
Qed.

Lemma appendChild_all (children l : list Row) :
  NoDup (rowId <$> l) →
  foldl appendChild children l
  = List.filter (fun c => bool_decide (rowId c ∉ rowId <$> l)) children ++ l.
Proof.
  revert children. induction l as [|x l IH]; intros children Hnd.
  - rewrite app_nil_r, filter_every; [done|].
    intros r _. apply bool_decide_eq_true_2. set_solver.
  - rewrite fmap_cons in Hnd. apply NoDup_cons in Hnd as [Hx Hnd].
    simpl. rewrite (IH _ Hnd). unfold appendChild.
    rewrite List.filter_app. simpl.
    rewrite bool_decide_eq_true_2 by done.
    rewrite <- app_assoc. simpl. f_equal.
    induction children as [|c children IHc]; [done|]. simpl.
    destruct (rowId c =? rowId x) eqn:E; simpl.
    + apply Nat.eqb_eq in E. rewrite bool_decide_eq_false_2 by (rewrite E; set_solver).
      done.
    + apply Nat.eqb_neq in E. rewrite IHc.
      destruct (decide (rowId c ∈ rowId <$> l)) as [Hin|Hout].
      * rewrite !bool_decide_eq_false_2 by set_solver. done.
      * rewrite !bool_decide_eq_true_2 by set_solver. done.
Qed.

Lemma filter_none (f : Row → bool) (l : list Row) :
  (∀ r, r ∈ l → f r = false) → List.filter f l = [].
Proof.
  induction l as [|x l IH]; intros Hf; [done|]. simpl.
  rewrite (Hf x) by set_solver. apply IH. intros r Hr. apply Hf. set_solver.
Qed.

Section BodyOrder.

Variable engine : nat → SortPlan.
Variable collatorCompare : string → string → Z.

Lemma sortColumn_body (column : nat) (t t' : Table) :
  sortColumn engine collatorCompare column t = Returned t' →
  body t' = foldl appendChild (body t) (rows t').
Proof.
  unfold sortColumn, Array_sort.
  destruct (headers t !! column) as [header|]; [|done].
  destruct (runPlan _ _) as [e|order]; [done|]. by intros [= <-].
Qed.

End BodyOrder.

(** X10: after a sort that returns, the rows of the body stand in the
    order of [this.rows], provided the sorted array holds distinct row
    elements and every row of the body is among them. *)
Theorem sorted_body_follows_rows (engine : nat → SortPlan)
  (collatorCompare : string → string → Z) (column : nat) (t t' : Table) :
  sortColumn engine collatorCompare column t = Returned t' →
  NoDup (rowId <$> rows t') →
  (∀ r, r ∈ body t → rowId r ∈ rowId <$> rows t') →
  body t' = rows t'.
Proof.
  intros Hsort Hnd Hbody.
  rewrite (sortColumn_body engine collatorCompare column t t' Hsort).
  rewrite (appendChild_all _ _ Hnd), filter_none; [done|].
  intros r Hr. apply bool_decide_eq_false_2. intros Hn. by apply Hn, Hbody.
Qed.

Lemma sorted_body_follows_rows_witness :
  body (stateOf (sortColumn insertionEngine byteCompare 0
                   (construct noPaging [plainHeader] threeRows [])))
  = [textRow 1 ["alice"]; textRow 2 ["Bob"]; textRow 0 ["Charlie"]].
Proof.
  rewrite (sorted_body_follows_rows insertionEngine byteCompare 0
             (construct noPaging [plainHeader] threeRows [])
             (stateOf (sortColumn insertionEngine byteCompare 0
                         (construct noPaging [plainHeader] threeRows [])))).
  - vm_compute. reflexivity.
  - vm_compute. reflexivity.
  - apply (bool_decide_unpack _). vm_compute. exact I.
  - intros r Hr. cbn in Hr.
    repeat (apply elem_of_cons in Hr as [->|Hr];
            [apply (bool_decide_unpack _); vm_compute; exact I|]).
    inversion Hr.
Defined.

(** ** Selected rows and the counter *)

Lemma deriveHeader_keeps (t : Table) :
  checkboxes (deriveHeader t) = checkboxes t ∧
  rows (deriveHeader t) = rows t ∧ body (deriveHeader t) = body t ∧
  selectedClass (deriveHeader t) = selectedClass t ∧
  selectedRows (deriveHeader t) = selectedRows t.
Proof. unfold deriveHeader. by repeat case_match. Qed.

Lemma elem_of_foldl_addSelected (l : list Row) (s : gset nat) (x : nat) :
  x ∈ foldl addSelected s l ↔ x ∈ s ∨ x ∈ rowId <$> l.
Proof.
  revert s. induction l as [|r l IH]; intros s; simpl.
  - set_solver.
  - rewrite IH. unfold addSelected. set_solver.
Qed.

Lemma elem_of_foldl_removeSelected (l : list Row) (s : gset nat) (x : nat) :
  x ∈ foldl removeSelected s l ↔ x ∈ s ∧ x ∉ rowId <$> l.
Proof.
  revert s. induction l as [|r l IH]; intros s; simpl.
  - set_solver.
  - rewrite IH. unfold removeSelected. set_solver.
Qed.

Lemma fmap_boxRow_alter (i : nat) (boxes : list RowCheckbox) :
  boxRow <$> alter toggleBox i boxes = boxRow <$> boxes.
Proof.
  revert i. induction boxes as [|b boxes IH]; intros [|i]; simpl; try done.
  f_equal. apply IH.
Qed.

Lemma fmap_boxRow_setBox (v : bool) (boxes : list RowCheckbox) :
  boxRow <$> (setBox v <$> boxes) = boxRow <$> boxes.
Proof. rewrite <- list_fmap_compose. by apply list_fmap_ext. Qed.

Lemma inputEvent_aligned (t : Table) (target : InputTarget) :
  boxesAligned t → selectedRows t = Z.of_nat (countChecked (checkboxes t)) →
  boxesAligned (inputEvent t target) ∧
  selectedRows (inputEvent t target)
    = Z.of_nat (countChecked (checkboxes (inputEvent t target))).
Proof.
  intros (Hal & Hnd & Hbody & Hcls) Hsel. unfold inputEvent.
  assert (length (checkboxes t) = length (rows t)) as Hlen.
  { by rewrite <- (length_fmap boxRow), Hal, length_fmap. }
  destruct target as [|i|]; simpl; [| |done].
  - destruct (negb (checked (checkboxHeader t))); simpl.
    + split; [|by rewrite countChecked_setBox, Hlen].
      unfold boxesAligned. simpl. rewrite fmap_boxRow_setBox.
      split; [done|]. split; [done|]. split; [done|].
      intros b' (b0 & -> & Hb0)%list_elem_of_fmap. simpl.
      split; [done|]. intros _.
      apply elem_of_foldl_addSelected. right. rewrite <- Hal.
      by apply list_elem_of_fmap_2.
    + split; [|by rewrite countChecked_setBox].
      unfold boxesAligned. simpl. rewrite fmap_boxRow_setBox.
      split; [done|]. split; [done|]. split; [done|].
      intros b' (b0 & -> & Hb0)%list_elem_of_fmap. simpl.
      split; [|done]. rewrite elem_of_foldl_removeSelected.
      intros [_ Hout]. exfalso. apply Hout.
      rewrite <- Hal. by apply list_elem_of_fmap_2.
  - rewrite list_lookup_alter_eq.
    destruct (checkboxes t !! i) as [b|] eqn:Hb.
    2:{ change (toggleBox <$> None) with (@None RowCheckbox). cbv beta iota.
        rewrite (alter_absent _ _ _ Hb). split; [|done].
        by unfold boxesAligned. }
    change (toggleBox <$> Some b) with (Some (toggleBox b)). cbv beta iota.
    match goal with |- context [deriveHeader ?s] => set (t1 := s) end.
    destruct (deriveHeader_keeps t1) as (Hd1 & Hd2 & Hd3 & Hd4 & Hd5).
    assert (checkboxes t1 = alter toggleBox i (checkboxes t) ∧ rows t1 = rows t ∧
            body t1 = body t ∧
            selectedClass t1 = (if boxChecked b then selectedClass t ∖ {[boxRow b]}
                                else {[boxRow b]} ∪ selectedClass t) ∧
            selectedRows t1 = (selectedRows t + (if boxChecked b then -1 else 1))%Z)
      as (Hb1 & Hr1 & Hbd1 & Hc1 & Hs1).
    { unfold t1. simpl. by destruct (boxChecked b). }
    split.
    + unfold boxesAligned. rewrite Hd1, Hd2, Hd3, Hd4, Hb1, Hr1, Hbd1, Hc1, fmap_boxRow_alter.
      split; [done|]. split; [done|]. split; [done|].
      intros b' [j Hj]%list_elem_of_lookup.
      destruct (decide (j = i)) as [->|Hne].
      * rewrite list_lookup_alter_eq, Hb in Hj. simpl in Hj. simplify_eq.
        assert (b ∈ checkboxes t) as Hin by (apply list_elem_of_lookup; eauto).
        pose proof (Hcls b Hin) as Hold. simpl.
        destruct (boxChecked b); simpl; set_solver.
      * rewrite list_lookup_alter_ne in Hj by done.
        assert (b' ∈ checkboxes t) as Hin by (apply list_elem_of_lookup; eauto).
        assert (boxRow b' ≠ boxRow b) as Hdiff.
        { intros Heq. apply Hne.
          rewrite <- Hal in Hnd.
          apply (NoDup_lookup _ _ _ (boxRow b) Hnd).
          - rewrite list_lookup_fmap, Hj. simpl. by rewrite Heq.
          - by rewrite list_lookup_fmap, Hb. }
        pose proof (Hcls b' Hin) as Hold.
        destruct (boxChecked b); set_solver.
    + rewrite Hd5, Hd1, Hs1, Hb1, Hsel. symmetry. by apply countChecked_toggle.
Qed.

Lemma selected_count (sel : gset nat) (rs : list Row) (bs : list RowCheckbox) :
  boxRow <$> bs = rowId <$> rs →
  (∀ b, b ∈ bs → (boxRow b ∈ sel ↔ boxChecked b = true)) →
  length (List.filter (fun r => bool_decide (rowId r ∈ sel)) rs) = countChecked bs.
Proof.
  unfold countChecked. revert bs. induction rs as [|r rs IH]; intros [|b bs] Hal Hcls;
    try done.
  rewrite !fmap_cons in Hal. injection Hal as Hid Hal. simpl.
  assert (bool_decide (rowId r ∈ sel) = boxChecked b) as ->.
  { rewrite <- Hid. destruct (boxChecked b) eqn:E.
    - apply bool_decide_eq_true_2, Hcls; [set_solver|done].
    - apply bool_decide_eq_false_2. rewrite Hcls by set_solver. by rewrite E. }
  assert (length (List.filter (fun r => bool_decide (rowId r ∈ sel)) rs)
          = length (List.filter boxChecked bs)) as Hrest.
  { apply IH; [done|]. intros b' Hb'. apply Hcls. set_solver. }
  destruct (boxChecked b); simpl; by rewrite Hrest.
Qed.

(** X11: with one checkbox per row in the order of the rows, and a start
    in which the selected class and the counter agree with the checked
    boxes, any sequence of header and row checkbox changes keeps the
    number of rows [getSelectedRows] returns equal to the counter of
    selected rows. *)
Theorem selected_rows_match_counter (t : Table) (events : list InputTarget) :
  boxesAligned t →
  selectedRows t = Z.of_nat (countChecked (checkboxes t)) →
  Z.of_nat (length (getSelectedRows (foldl inputEvent t events)))
  = selectedRows (foldl inputEvent t events).
Proof.
  intros Hal Hsel.
  assert (boxesAligned (foldl inputEvent t events) ∧
          selectedRows (foldl inputEvent t events)
            = Z.of_nat (countChecked (checkboxes (foldl inputEvent t events))))
    as [(Hal' & _ & Hbody & Hcls) ->].
  { revert t Hal Hsel. induction events as [|e events IH]; intros t Hal Hsel; simpl.
    - done.
    - destruct (inputEvent_aligned t e Hal Hsel) as [Hal' Hsel']. by apply IH. }
  unfold getSelectedRows. rewrite Hbody. f_equal. by apply selected_count.
Qed.

Lemma selected_rows_match_counter_witness :
  Z.of_nat (length (getSelectedRows
                      (foldl inputEvent uncheckedMarkup [RowInput 0; HeaderInput; RowInput 1])))
  = 1%Z.
Proof.
  rewrite selected_rows_match_counter.
  - vm_compute. reflexivity.
  - split; [reflexivity|]. split; [apply (bool_decide_unpack _); vm_compute; exact I|].
    split; [reflexivity|].
    intros b Hb. cbn in Hb.
    repeat (apply elem_of_cons in Hb as [->|Hb]; [by split|]). inversion Hb.
  - reflexivity.
Defined.

(** ** Truncated header texts *)

Lemma length_substring_0 (n : nat) (s : string) :
  String.length (String.substring 0 n s) = Nat.min n (String.length s).
Proof.
  revert n. induction s as [|c s IH]; intros [|n]; simpl; try done.
  by rewrite IH.
Qed.

Lemma length_append (a b : string) :
  String.length (a +:+ b) = String.length a + String.length b.
Proof. induction a as [|c a IH]; simpl; [done|]. by rewrite IH. Qed.



Lemma truncate_long (limit : nat) (s : string) :
  limit < String.length s →
  truncate limit s = String.substring 0 (limit - 1) s +:+ "..." ∧
  String.length (truncate limit s) = limit - 1 + 3.
Proof.
  intros Hlt. unfold truncate.
  rewrite (proj2 (Nat.ltb_lt _ _) Hlt). split; [done|].
  rewrite length_append, length_substring_0. simpl. lia.
Qed.





Lemma truncateHeader_changed (charLimit : nat) (h : HeaderLabel) :
  charLimit < String.length (labelText h) →
  truncateHeader charLimit h
  = mkHeaderLabel (truncate charLimit (labelText h)) (Some (labelText h)).
Proof.
  intros Hlt. unfold truncateHeader. by rewrite (proj2 (Nat.ltb_lt _ _) Hlt).
Qed.

Lemma truncateHeader_kept (charLimit : nat) (h : HeaderLabel) :
  String.length (labelText h) ≤ charLimit → truncateHeader charLimit h = h.
Proof.
  intros Hle. unfold truncateHeader. by rewrite (proj2 (Nat.ltb_ge _ _) Hle).
Qed.

(** X13: [truncateHeaders] with limit 0 changes no header.  With a
    positive limit it keeps the number of headers, leaves a header whose
    text has at most [charLimit] characters as it is, and gives a longer
    one the truncated text, of [charLimit + 2] characters, with the
    original text as its tooltip. *)
Theorem truncateHeaders_keeps_original (charLimit : nat) (hs : list HeaderLabel) :
  truncateHeaders 0 hs = hs ∧
  length (truncateHeaders charLimit hs) = length hs ∧
  ∀ i h, hs !! i = Some h → 1 ≤ charLimit →
    ∃ h', truncateHeaders charLimit hs !! i = Some h' ∧
      (String.length (labelText h) ≤ charLimit → h' = h) ∧
      (charLimit < String.length (labelText h) →
         labelText h' = truncate charLimit (labelText h) ∧
         String.length (labelText h') = charLimit + 2 ∧
         tooltip h' = Some (labelText h)).
Proof.
  split; [done|]. split.
  - unfold truncateHeaders. destruct (0 <? charLimit); [|done]. by rewrite length_fmap.
  - intros i h Hi Hl. unfold truncateHeaders.
    rewrite (proj2 (Nat.ltb_lt _ _) Hl), list_lookup_fmap, Hi. simpl.
    eexists. split; [done|]. split.
    + apply truncateHeader_kept.
    + intros Hlt. rewrite (truncateHeader_changed _ _ Hlt). simpl.
      destruct (truncate_long charLimit (labelText h) Hlt) as [_ Hlen].
      repeat split; try done. lia.
Qed.

Lemma truncateHeaders_keeps_original_witness :
  ∃ h', truncateHeaders 5 [mkHeaderLabel "Name" None; mkHeaderLabel "Birthday" None] !! 1
          = Some h' ∧
        String.length (labelText h') = 7 ∧
        tooltip h' = Some "Birthday".
Proof.
  destruct (truncateHeaders_keeps_original 5
              [mkHeaderLabel "Name" None; mkHeaderLabel "Birthday" None])
    as (_ & _ & Hat).
  destruct (Hat 1 (mkHeaderLabel "Birthday" None) eq_refl ltac:(lia))
    as (h' & Hh' & _ & Hlong).
  destruct Hlong as (_ & Hlen & Htip); [simpl; lia|].
  exists h'. split; [exact Hh'|]. split; [exact Hlen|exact Htip].
Defined.

(** ** The spacing preference *)

Lemma unload_id (s : Spacing) : unload s = s.
Proof.
  unfold unload. induction (unloadListeners s) as [|n IH]; [done|].
  by rewrite Nat.iter_succ.
Qed.

Lemma spacingStep_fields (save : bool) (s : Spacing) (e : SpacingEvent) :
  storedSpacing (spacingStep save s e) = storedSpacing s ∧
  condensed (spacingStep save s e)
    = match e with ToggleSpacing => negb (condensed s) | Unload => condensed s end.
Proof.
  destruct e; simpl.
  - unfold toggleSpacing. by destruct save.
  - by rewrite unload_id.
Qed.

(** X14: the spacing written by [updateSpacing] is the one the
    constructor restores on the next load when preferences are saved,
    whatever class the markup has; without saved preferences, or with no
    stored item, the class of the markup stays. *)
Theorem spacing_round_trip (s : Spacing) (markupCondensed : bool) :
  condensed (restoreSpacing true markupCondensed (storedSpacing (updateSpacing s)))
    = condensed s ∧
  (∀ stored, condensed (restoreSpacing false markupCondensed stored) = markupCondensed) ∧
  (∀ save, condensed (restoreSpacing save markupCondensed None) = markupCondensed).
Proof.
  split; [|split].
  - unfold restoreSpacing, updateSpacing, applySpacing. simpl.
    by destruct (condensed s).
  - intros stored. unfold restoreSpacing. by destruct stored as [[|]|].
  - done.
Qed.

(** X15: no sequence of [toggleSpacing] calls and page unloads writes the
    stored spacing, with or without [savePreferences]: the listener
    [toggleSpacing] registers never calls [updateSpacing].  The class is
    flipped once per call, so after a reload the constructor restores what
    was stored before the calls. *)
Theorem toggleSpacing_never_stores (save : bool) (s : Spacing)
  (events : list SpacingEvent) :
  storedSpacing (foldl (spacingStep save) s events) = storedSpacing s ∧
  condensed (foldl (spacingStep save) s events)
    = (if Nat.even (toggles events) then condensed s else negb (condensed s)).
Proof.
  revert s. induction events as [|e events IH]; intros s; [done|].
  cbn [foldl]. destruct (IH (spacingStep save s e)) as [-> ->].
  destruct (spacingStep_fields save s e) as [-> ->].
  split; [done|]. destruct e.
  - change (toggles (ToggleSpacing :: events)) with (S (toggles events)).
    rewrite Nat.even_succ, <- Nat.negb_even.
    by destruct (Nat.even (toggles events)), (condensed s).
  - done.
Qed.


(** ** The stored page size *)

Lemma digitValue_pretty_N_char (d : N) :
  (d < 10)%N → digitValue (pretty_N_char d) = Some (Z.of_N d).
Proof.
  intros Hd.
  assert (d = 0 ∨ d = 1 ∨ d = 2 ∨ d = 3 ∨ d = 4 ∨ d = 5 ∨ d = 6 ∨ d = 7 ∨ d = 8
          ∨ d = 9)%N as Hcases by lia.
  repeat (destruct Hcases as [->|Hcases]; [reflexivity|]). by subst.
Qed.

Lemma digits_pretty_N_go (x : N) (s : string) (a : Z) :
  ∃ k : nat, digits a (pretty_N_go x s)
             = digits (a * 10 ^ Z.of_nat k + Z.of_N x)%Z s.
Proof.
  revert s. induction (N.lt_wf_0 x) as [x _ IH]; intros s.
  destruct (decide (x = 0%N)) as [->|Hx].
  - exists 0. rewrite pretty_N_go_0. f_equal. simpl. lia.
  - rewrite pretty_N_go_step by lia.
    destruct (IH (x `div` 10)%N) with (s := String (pretty_N_char (x `mod` 10)) s)
      as [k Hk].
    { apply N.div_lt; lia. }
    exists (S k). rewrite Hk. simpl.
    rewrite digitValue_pretty_N_char by (apply N.mod_lt; lia).
    f_equal. rewrite Nat2Z.inj_succ, Z.pow_succ_r by lia.
    rewrite N2Z.inj_mod, N2Z.inj_div.
    pose proof (Z.div_mod (Z.of_N x) 10 ltac:(lia)) as Hdm.
    change (Z.of_N 10) with 10%Z. lia.
Qed.

Lemma digits_pretty (n : nat) : digits 0 (pretty n) = Int (Z.of_nat n).
Proof.
  unfold pretty, pretty_nat, pretty, pretty_N.
  destruct (decide (N.of_nat n = 0%N)) as [H0|Hn].
  - assert (n = 0) as -> by lia. reflexivity.
  - destruct (digits_pretty_N_go (N.of_nat n) EmptyString 0) as [k ->].
    simpl. f_equal. lia.
Qed.

Lemma paginate_stored (limit : nat) (t : Table) :
  storedItemsPerPage (paginate limit t)
  = if optSavePreferences (options t) then Some (pretty limit)
    else storedItemsPerPage t.
Proof. unfold paginate. fields. Qed.

(** X16: after [paginate(limit)], [getItemsPerPage] returns [limit] when
    preferences are saved (the number written to localStorage reads back
    as itself) and when nothing, or the empty string, is stored; with
    preferences not saved and the decimal text of a number [m] stored, it
    returns [m], whatever [limit] is. *)
Theorem getItemsPerPage_after_paginate (limit : nat) (t : Table) :
  (optSavePreferences (options t) = true →
   getItemsPerPage (paginate limit t) = Int (Z.of_nat limit)) ∧
  (optSavePreferences (options t) = false →
   storedItemsPerPage t = None ∨ storedItemsPerPage t = Some EmptyString →
   getItemsPerPage (paginate limit t) = Int (Z.of_nat limit)) ∧
  (optSavePreferences (options t) = false →
   ∀ m : nat, storedItemsPerPage t = Some (pretty m) →
   getItemsPerPage (paginate limit t) = Int (Z.of_nat m)).
Proof.
  destruct (paginate_fields limit t) as (_ & _ & Hi & _).
  unfold getItemsPerPage. rewrite paginate_stored, Hi.
  split; [|split].
  - intros ->. pose proof (digits_pretty limit) as Hd.
    destruct (pretty limit) as [|c s]; [done|]. exact Hd.
  - intros -> [->| ->]; done.
  - intros -> m ->. pose proof (digits_pretty m) as Hd.
    destruct (pretty m) as [|c s] eqn:Hm; [|exact Hd].
    simpl in Hd. injection Hd as Hd. assert (m = 0) as -> by lia. done.
Qed.

Lemma getItemsPerPage_after_paginate_witness :
  getItemsPerPage (paginate 25 (construct (mkOptions false true false true)
                                  [plainHeader] threeRows [])) = Int 25.
Proof.
  apply (proj1 (getItemsPerPage_after_paginate 25
                  (construct (mkOptions false true false true)
                     [plainHeader] threeRows []))).
  reflexivity.
Defined.

(** ** Row indices for assistive technologies *)

Lemma ariaRowCount_loop {A : Type} (trs : list A) (counter : nat) (out : list string) :
  foldl (fun (acc : nat * list string) (_ : A) =>
           let counter := fst acc + 1 in (counter, snd acc ++ [pretty counter]))
        (counter, out) trs
  = (counter + length trs, out ++ (pretty <$> seq (counter + 1) (length trs))).
Proof.
  revert counter out. induction trs as [|x trs IH]; intros counter out; simpl.
  - by rewrite Nat.add_0_r, app_nil_r.
  - rewrite IH. simpl. f_equal; [lia|]. rewrite <- app_assoc. simpl.
    by replace (counter + 1 + 1) with (S (counter + 1)) by lia.
Qed.

(** X17: [ariaRowCount] announces the number of [tr] elements and gives
    the [tr] at position [i] (from 0, in document order) the index
    [i + 1]. *)
Theorem ariaRowCount_indices {A : Type} (trs : list A) :
  ariaRowCount trs = (pretty (length trs), pretty <$> seq 1 (length trs)) ∧
  (∀ i, i < length trs → snd (ariaRowCount trs) !! i = Some (pretty (i + 1))).
Proof.
  assert (ariaRowCount trs = (pretty (length trs), pretty <$> seq 1 (length trs)))
    as Heq.
  { unfold ariaRowCount. by rewrite ariaRowCount_loop. }
  split; [done|]. intros i Hi. rewrite Heq. simpl.
  rewrite list_lookup_fmap, lookup_seq_lt by done. simpl. f_equal. f_equal. lia.
Qed.

Lemma ariaRowCount_indices_witness :
  snd (ariaRowCount threeRows) !! 2 = Some "3".
Proof.
  apply (proj2 (ariaRowCount_indices threeRows) 2). simpl. lia.
Defined.

(** ** The event of a header click *)

Section ClickEvent.

Variable engine : nat → SortPlan.
Variable collatorCompare : string → string → Z.

Lemma sortColumn_effects (column : nat) (t t' : Table) :
  sortColumn engine collatorCompare column t = Returned t' →
  effects t' = effects t ++ [Sorted column (getSortingOrder t)] ∧
  options t' = options t.
Proof.
  unfold sortColumn, Array_sort.
  destruct (headers t !! column) as [header|]; [|done].
  destruct (runPlan _ _) as [e|order]; [done|]. by intros [= <-].
Qed.

End ClickEvent.

(** X18: a click on a sortable header whose sort returns dispatches one
    [sorted] event, after everything dispatched before, and its direction
    is the opposite of the order held before the click: with the default
    order ASC the first click sorts descending. *)
Theorem click_dispatches_sorted (engine : nat → SortPlan)
  (collatorCompare : string → string → Z) (index : nat) (clicked : Header)
  (t t' : Table) :
  headers t !! index = Some clicked → sortable clicked = true →
  sortOnClick engine collatorCompare (HeaderCell index) t = Returned t' →
  effects t' = effects t ++ [Sorted index (if sortASC t then "DESC" else "ASC")].
Proof.
  intros Hh Hs. unfold sortOnClick. rewrite Hh, Hs. simpl.
  destruct (sortColumn _ _ _ _) as [t1|e t1] eqn:Hsort; [|done].
  apply sortColumn_effects in Hsort as [He Ho].
  assert (effects t1 = effects t ++ [Sorted index (if sortASC t then "DESC" else "ASC")])
    as Heff.
  { rewrite He. unfold getSortingOrder. simpl. by destruct (sortASC t). }
  destruct (optPaginate (options t1)); intros [= <-]; exact Heff.
Qed.

Lemma click_dispatches_sorted_witness :
  effects afterClick = effects twoPerPage ++ [Sorted 0 "DESC"].
Proof.
  apply (click_dispatches_sorted insertionEngine byteCompare 0 plainHeader
           twoPerPage afterClick eq_refl eq_refl).
  vm_compute. reflexivity.
Defined.

(** ** Dates *)

Lemma split_token (a rest : string) (x : ascii) :
  noDelimiter a = true → delimiter x = true →
  split (a +:+ String x rest) = a :: split rest.
Proof.
  intros Ha Hx. induction a as [|c a IH]; simpl.
  - by rewrite Hx.
  - simpl in Ha. apply andb_true_iff in Ha as [Hc Ha].
    apply negb_true_iff in Hc. by rewrite Hc, (IH Ha).
Qed.

(** X19: a date of three tokens without [.] and [/], joined by [.] or
    [/], is split into these tokens, and each format hands them to [Date]
    in its own order: year, month token as month index, day. *)
Theorem convert_token_order (a b c : string) (x y : ascii) :
  noDelimiter a = true → noDelimiter b = true → noDelimiter c = true →
  delimiter x = true → delimiter y = true →
  split (a +:+ String x (b +:+ String y c)) = [a; b; c] ∧
  convertStringToDate (a +:+ String x (b +:+ String y c)) "DMY"
    = Some (newDate (toNumber (Some c)) (toNumber (Some b)) (toNumber (Some a))) ∧
  convertStringToDate (a +:+ String x (b +:+ String y c)) "MDY"
    = Some (newDate (toNumber (Some c)) (toNumber (Some a)) (toNumber (Some b))) ∧
  convertStringToDate (a +:+ String x (b +:+ String y c)) "YMD"
    = Some (newDate (toNumber (Some a)) (toNumber (Some b)) (toNumber (Some c))) ∧
  convertStringToDate (a +:+ String x (b +:+ String y c)) "YDM"
    = Some (newDate (toNumber (Some a)) (toNumber (Some c)) (toNumber (Some b))).
Proof.
  intros Ha Hb Hc Hx Hy.
  assert (split (a +:+ String x (b +:+ String y c)) = [a; b; c]) as Hsplit.
  { rewrite (split_token a _ x Ha Hx), (split_token b _ y Hb Hy).
    by rewrite (split_noDelimiter c Hc). }
  split; [done|]. unfold convertStringToDate. rewrite Hsplit. done.
Qed.

Lemma convert_token_order_witness :
  convertStringToDate "06/24/1966" "MDY"
  = Some (newDate (Int 1966) (Int 6) (Int 24)).
Proof.
  apply (proj1 (proj2 (proj2
    (convert_token_order "06" "24" "1966" "/" "/" eq_refl eq_refl eq_refl eq_refl eq_refl)))).
Defined.

(** X20: the date comparison answers -1, 0 or 1; swapping the two dates
    negates the answer, and the descending comparison is the ascending
    one with the dates swapped. *)
Theorem compareDates_antisymmetric (asc : bool) (s1 s2 : option JsDate) :
  compareDates asc s1 s2 = (- compareDates asc s2 s1)%Z ∧
  compareDates false s1 s2 = compareDates true s2 s1 ∧
  (compareDates asc s1 s2 = (-1)%Z ∨ compareDates asc s1 s2 = 0%Z
   ∨ compareDates asc s1 s2 = 1%Z).
Proof.
  unfold compareDates, jsLt.
  destruct (timeValue s1) as [x|], (timeValue s2) as [y|]; destruct asc;
    try (by (repeat split; auto)).
  - destruct (x <? y)%Z eqn:E1, (y <? x)%Z eqn:E2; try (by (repeat split; auto)).
    apply Z.ltb_lt in E1, E2. lia.
  - destruct (x <? y)%Z eqn:E1, (y <? x)%Z eqn:E2; try (by (repeat split; auto)).
    apply Z.ltb_lt in E1, E2. lia.
Qed.
